(** * Multi-selection of tree nodes: the gesture stack and the tree model

    A shallow embedding of
    - [packages/core/src/browser/tree/tree-selection.ts], in its two
      revisions: the list based [TreeSelectionServiceImpl] with
      [setSelection], and the gesture based one with [TreeSelectionState]
      and [addSelection];
    - [packages/core/src/browser/tree/tree-model.ts] ([TreeModelImpl]).

    Node objects are compared by reference in the source.  Here a node
    is named by its [id], which is unique within a tree, and the fields
    of a node are read from the tree it lives in. *)

From Stdlib Require Import List String Bool Arith ZArith Lia.
Import ListNotations.
Local Open Scope string_scope.
Local Open Scope list_scope.

Set Implicit Arguments.

(** ** Fallible computations: a [throw] becomes [Err] *)

Inductive result (A : Type) : Type :=
| Ok (a : A)
| Err (msg : string).
Arguments Ok {A} a.
Arguments Err {A} msg.

Definition bind {A B : Type} (r : result A) (k : A -> result B) : result B :=
  match r with
  | Ok a => k a
  | Err m => Err m
  end.

Notation "x <- r ;; k" := (bind r (fun x => k))
  (at level 61, r at next level, right associativity).

(** ** JavaScript array primitives used by the source *)

Section Arrays.
Variable A : Type.
Variable eqbA : A -> A -> bool.

(** [arr.indexOf(x)]: the first index holding [x], or [-1]. *)
Fixpoint indexOf (arr : list A) (x : A) : Z :=
  match arr with
  | [] => (-1)%Z
  | y :: rest =>
      if eqbA y x then 0%Z
      else let i := indexOf rest x in
           if (i =? -1)%Z then (-1)%Z else (i + 1)%Z
  end.

(** [arr.splice(start, deleteCount, ...items)], for [0 <= start]:
    the array left behind. *)
Definition splice (arr : list A) (start deleteCount : nat) (items : list A)
  : list A :=
  firstn start arr ++ items ++ skipn (start + deleteCount) arr.

(** [toRemove.forEach(index => copy.splice(index, 1))]. *)
Definition spliceEach (toRemove : list nat) (copy : list A) : list A :=
  fold_left (fun c index => splice c index 1 []) toRemove copy.

(** [arr.pop()]: the array left behind. *)
Definition pop (arr : list A) : list A := removelast arr.

(** [arr.shift()]: the array left behind. *)
Definition shift (arr : list A) : list A := tl arr.

(** [left.filter(item => right.indexOf(item) === -1)]. *)
Definition difference (left right : list A) : list A :=
  filter (fun item => (indexOf right item =? -1)%Z) left.
End Arrays.

(** ** Trees *)

Definition NodeId := string.

(** A tree node: [selectable] says that the object has a [selected]
    property ([SelectableTreeNode.is]); [expanded] is [None] for a node
    that is not an [ExpandableTreeNode]. *)
Unset Elimination Schemes.
Inductive TreeNode : Type :=
  mkTreeNode (id : NodeId) (visible : bool) (selectable : bool)
             (expanded : option bool) (children : list TreeNode).
Set Elimination Schemes.

Definition id (n : TreeNode) : NodeId :=
  let 'mkTreeNode i _ _ _ _ := n in i.
Definition visible (n : TreeNode) : bool :=
  let 'mkTreeNode _ v _ _ _ := n in v.
Definition selectable (n : TreeNode) : bool :=
  let 'mkTreeNode _ _ s _ _ := n in s.
Definition expanded (n : TreeNode) : option bool :=
  let 'mkTreeNode _ _ _ e _ := n in e.
Definition children (n : TreeNode) : list TreeNode :=
  let 'mkTreeNode _ _ _ _ c := n in c.

(** The [Tree] collaborator: only its [root] matters here. *)
Record Tree : Type := mkTree { root : option TreeNode }.

(** [ExpandableTreeNode.isCollapsed]: expandable and not expanded. *)
Definition isCollapsed (n : TreeNode) : bool :=
  match expanded n with
  | Some false => true
  | _ => false
  end.

(** Modelled from the spec: [PreOrderTreeIterator] of [tree-iterator.ts],
    which is not part of the sources at hand.  It yields the root, then
    recursively each child from left to right; with [pruneCollapsed] the
    children of a non-expanded expandable node are skipped. *)
Fixpoint PreOrderTreeIterator (pruneCollapsed : bool) (n : TreeNode)
  : list TreeNode :=
  match n with
  | mkTreeNode _ _ _ e cs =>
      n :: (if pruneCollapsed && isCollapsed n
            then []
            else flat_map (PreOrderTreeIterator pruneCollapsed) cs)
  end.

(** The ids yielded by [new PreOrderTreeIterator(root, { pruneCollapsed: true })]. *)
Definition prunedOrder (r : TreeNode) : list NodeId :=
  map id (PreOrderTreeIterator true r).

(** Modelled from the spec: [Tree.getNode(id)], the node of the current
    tree with that id, if any. *)
Definition getNode (t : Tree) (i : NodeId) : option TreeNode :=
  match root t with
  | None => None
  | Some r => find (fun n => String.eqb (id n) i) (PreOrderTreeIterator false r)
  end.

(** Modelled from the spec: [Tree.validateNode(n)], the identity check
    within the current tree; a missing node ([undefined]) is [None]. *)
Definition validateNode (t : Tree) (n : option NodeId) : option NodeId :=
  match n with
  | None => None
  | Some i => match getNode t i with
              | Some _ => Some i
              | None => None
              end
  end.

(** [SelectableTreeNode.is], read from the tree. *)
Definition SelectableTreeNode_is (t : Tree) (i : NodeId) : bool :=
  match getNode t i with
  | Some n => selectable n
  | None => false
  end.

(** Modelled from the spec: the strict descendants of a node, that is the
    transitive closure of the parent relation below it. *)
Fixpoint descendants (n : TreeNode) : list NodeId :=
  match n with
  | mkTreeNode _ _ _ _ cs => flat_map (fun c => id c :: descendants c) cs
  end.

(** Modelled from the spec: [CompositeTreeNode.isAncestor(a, d)]. *)
Definition isAncestor (t : Tree) (a d : NodeId) : bool :=
  match getNode t a with
  | Some n => existsb (String.eqb d) (descendants n)
  | None => false
  end.

(** Modelled from the spec: the nodes that are visible, a node being
    visible iff it and all its ancestors are visible and its ancestors
    are expanded where expandable. *)
Fixpoint visibleNodes (n : TreeNode) : list NodeId :=
  match n with
  | mkTreeNode i v _ e cs =>
      if v
      then i :: (match e with
                 | Some false => []
                 | _ => flat_map visibleNodes cs
                 end)
      else []
  end.

(** Modelled from the spec: [TreeNode.isVisible]. *)
Definition TreeNode_isVisible (t : Tree) (i : NodeId) : bool :=
  match root t with
  | Some r => existsb (String.eqb i) (visibleNodes r)
  | None => false
  end.

(** [SelectableTreeNode.isVisible]. *)
Definition SelectableTreeNode_isVisible (t : Tree) (i : NodeId) : bool :=
  SelectableTreeNode_is t i && TreeNode_isVisible t i.

(** [!node.expanded], the flag being read from the tree. *)
Definition notExpanded (t : Tree) (i : NodeId) : bool :=
  match getNode t i with
  | Some n => match expanded n with
              | Some true => false
              | _ => true
              end
  | None => true
  end.

(** Modelled from the spec: [MOCK_ROOT] of [test/mock-tree-model.ts],
    root [1] with children [1.1 (1.1.1, 1.1.2)],
    [1.2 (1.2.1 (1.2.1.1, 1.2.1.2), 1.2.2, 1.2.3)] and [1.3], every node
    selectable, visible and expanded. *)
Definition mockNode (i : NodeId) (cs : list TreeNode) : TreeNode :=
  mkTreeNode i true true (Some true) cs.

Definition MOCK_ROOT : TreeNode :=
  mockNode "1"
    [ mockNode "1.1" [ mockNode "1.1.1" []; mockNode "1.1.2" [] ];
      mockNode "1.2"
        [ mockNode "1.2.1" [ mockNode "1.2.1.1" []; mockNode "1.2.1.2" [] ];
          mockNode "1.2.2" [];
          mockNode "1.2.3" [] ];
      mockNode "1.3" [] ].

Definition mockTree : Tree := mkTree (Some MOCK_ROOT).

(** [collapseNode] of the expansion service on the mock tree: the flag
    [expanded] of the nodes named in [ids] becomes [false]. *)
Fixpoint collapseNodes (ids : list NodeId) (n : TreeNode) : TreeNode :=
  match n with
  | mkTreeNode i v s e cs =>
      mkTreeNode i v s
        (if existsb (String.eqb i) ids
         then match e with Some _ => Some false | None => None end
         else e)
        (map (collapseNodes ids) cs)
  end.


(** ** The range scan shared by the tree model and by the selection state

    The body of the loop
    [for (const node of new PreOrderTreeIterator(root, { pruneCollapsed: true }))]
    of both [selectionRange] methods; [it] is what the iterator still
    has to yield. *)
Fixpoint selectionRange_loop (from to : NodeId) (it : list NodeId)
    (started finished : bool) (range : list NodeId) : list NodeId :=
  match it with
  | [] => range
  | node :: rest =>
      if finished then range
      else
        let hit := String.eqb node from || String.eqb node to in
        let started' := if hit then (if started then started else true)
                        else started in
        let finished' := if hit then (if started then true else finished)
                         else finished in
        let range' := if started' then range ++ [node] else range in
        selectionRange_loop from to rest started' finished' range'
  end.

(** The end of both [selectionRange] methods: reverse when [from] comes
    after [to], then keep the selectable nodes. *)
Definition orientRange (t : Tree) (from to : NodeId) (range : list NodeId)
  : list NodeId :=
  let range' :=
    if (indexOf String.eqb range from >? indexOf String.eqb range to)%Z
    then rev range else range in
  filter (SelectableTreeNode_is t) range'.

(** ** The list based selection service (first revision of
       [tree-selection.ts]) *)

Module TreeSelectionServiceImpl.

(** [selected] is the flag carried by the nodes; [fired] collects the
    payloads of the [onSelectionChanged] events, latest first. *)
Record t : Type := mk {
  _selectedNodes : list NodeId;
  selected : NodeId -> bool;
  fired : list (list NodeId)
}.

Definition selectedNodes (svc : t) : list NodeId := _selectedNodes svc.

Definition doSelectNodes (svc : t) (nodes : list NodeId) : t :=
  let copy := nodes in
  let cleared := fun n =>
    if existsb (String.eqb n) (_selectedNodes svc) then false
    else selected svc n in
  let flagged := fun n =>
    if existsb (String.eqb n) copy then true else cleared n in
  mk copy flagged (copy :: fired svc).

(** [nodes.slice().filter(validateNode).filter(notEmpty).filter(SelectableTreeNode.is)];
    the elements of [nodes] are defined, so [notEmpty] keeps them all. *)
Definition setSelection (tr : Tree) (svc : t) (nodes : list NodeId) : t :=
  doSelectNodes svc
    (filter (SelectableTreeNode_is tr)
       (filter (fun n => match validateNode tr (Some n) with
                         | Some _ => true
                         | None => false
                         end) nodes)).

End TreeSelectionServiceImpl.

(** ** The tree model ([tree-model.ts]) *)

Module TreeModelImpl.

Import TreeSelectionServiceImpl.

Definition eqbOpt (a : NodeId) (b : option NodeId) : bool :=
  match b with
  | Some b' => String.eqb a b'
  | None => false
  end.

(** [selectionRange(toNode, fromNode)]; [fromNode] may be [undefined]
    when [selectRange] passes [this.selectedNodes[0]]. *)
Definition selectionRange (tr : Tree) (toNode : NodeId)
    (fromNode : option NodeId) : list NodeId :=
  if eqbOpt toNode fromNode then []
  else
    match root tr with
    | None => []
    | Some r =>
        match validateNode tr (Some toNode) with
        | None => []
        | Some to =>
            match validateNode tr fromNode with
            | None => []
            | Some from =>
                let range :=
                  selectionRange_loop from to (prunedOrder r) false false [] in
                orientRange tr from to range
            end
        end
    end.

(** The loop [for (const node of copy)] of [selectRange], whose body
    splices [copy] while it is being iterated: [i] is the position of
    the array iterator, which stops once [i] reaches the current
    length.  [fuel] bounds the iterations; [length copy] is enough. *)
Fixpoint selectRange_loop (fuel : nat) (range : list NodeId) (i : nat)
    (copy : list NodeId) : list NodeId :=
  match fuel with
  | 0 => copy
  | S fuel' =>
      match nth_error copy i with
      | None => copy
      | Some node =>
          let index := indexOf String.eqb range node in
          if negb (index =? -1)%Z
          then selectRange_loop fuel' range (S i)
                 (splice copy (Z.to_nat index) 1 [])
          else selectRange_loop fuel' range (S i) copy
      end
  end.

Definition selectRange (tr : Tree) (svc : t) (toNode : NodeId)
    (fromNode : option NodeId) (preserveSelection : bool) : t :=
  let from := match fromNode with
              | Some f => Some f
              | None => hd_error (selectedNodes svc)
              end in
  let range := rev (selectionRange tr toNode from) in
  if Nat.eqb (List.length range) 0 then svc
  else if preserveSelection
  then
    let copy := selectedNodes svc in
    let copy' := selectRange_loop (List.length copy) range 0 copy in
    setSelection tr svc (range ++ copy')
  else setSelection tr svc range.

(** The listener that [init] registers on
    [expansionService.onExpansionChanged]; [fireChanged] has no
    effect on the selection. *)
Definition onExpansionChanged (tr : Tree) (svc : t) (node : NodeId) : t :=
  if notExpanded tr node
     && existsb (fun selectedNode => isAncestor tr node selectedNode)
          (selectedNodes svc)
  then
    if SelectableTreeNode_isVisible tr node
    then setSelection tr svc [node]
    else svc
  else svc.

Definition selectNode (tr : Tree) (svc : t) (node : NodeId)
    (preserveSelection : bool) : t :=
  if preserveSelection then
    let copy := selectedNodes svc in
    let index := indexOf String.eqb copy node in
    if (index =? -1)%Z then setSelection tr svc (node :: copy)
    else if negb (index =? 0)%Z
    then setSelection tr svc (node :: splice copy (Z.to_nat index) 1 [])
    else svc
  else setSelection tr svc [node].

Definition unselectNode (tr : Tree) (svc : t) (node : NodeId) : t :=
  let copy := selectedNodes svc in
  let index := indexOf String.eqb copy node in
  if negb (index =? -1)%Z
  then setSelection tr svc (splice copy (Z.to_nat index) 1 [])
  else svc.

(** [node.selected] is the flag that the service keeps on the node. *)
Definition toggleSelection (tr : Tree) (svc : t) (node : NodeId) : t :=
  if selected svc node then unselectNode tr svc node
  else selectNode tr svc node true.

End TreeModelImpl.

(** ** Gestures (second revision of [tree-selection.ts]) *)

Module TreeSelection.

Inductive SelectionType : Type := DEFAULT | TOGGLE | RANGE.

(** The field [type] is optional in the source. *)
Record t : Type := mk { node : NodeId; type : option SelectionType }.

Definition isRANGE (ty : option SelectionType) : bool :=
  match ty with Some RANGE => true | _ => false end.

Definition isTOGGLE (ty : option SelectionType) : bool :=
  match ty with Some TOGGLE => true | _ => false end.

Definition isDEFAULT (ty : option SelectionType) : bool :=
  match ty with Some DEFAULT => true | _ => false end.

End TreeSelection.

(** The argument of [nextState] and [addSelection]:
    [TreeSelection | 'reset']. *)
Inductive SelectionArg : Type :=
| reset
| gesture (selection : TreeSelection.t).

(** ** The selection state: a stack of gestures, oldest first *)

Module TreeSelectionState.

Import TreeSelection.

Record t : Type := mk { selectionStack : list TreeSelection.t }.

(** [new TreeSelectionState(tree)]. *)
Definition empty : t := mk [].

Definition checkNoDefaultSelection (selections : list TreeSelection.t)
  : result (list TreeSelection.t) :=
  if existsb (fun selection =>
                match type selection with
                | None => true
                | Some ty => isDEFAULT (Some ty)
                end) selections
  then Err "Unexpected DEFAULT selection type."
  else Ok selections.

(** [selectionRange(fromNode, toNode)]. *)
Definition selectionRange (tr : Tree) (fromNode : option NodeId)
    (toNode : NodeId) : list NodeId :=
  match fromNode with
  | None => []
  | Some fromNode' =>
      if String.eqb toNode fromNode' then []
      else
        match root tr with
        | None => []
        | Some r =>
            match validateNode tr (Some toNode) with
            | None => []
            | Some to =>
                match validateNode tr fromNode with
                | None => []
                | Some from =>
                    let range :=
                      selectionRange_loop from to (prunedOrder r)
                        false false [] in
                    orientRange tr from to range
                end
            end
        end
  end.

(** The loop of [in]: [None] when the iterator is exhausted without a
    [return]. *)
Fixpoint in_loop (from to toTest : NodeId) (it : list NodeId)
    (started finished : bool) : option bool :=
  match it with
  | [] => None
  | node :: rest =>
      if finished || (String.eqb toTest node && negb started) then Some false
      else
        let hit := String.eqb node from || String.eqb node to in
        let started' := if hit then (if started then started else true)
                        else started in
        let finished' := if hit then (if started then true else finished)
                         else finished in
        if started' && String.eqb toTest node then Some true
        else in_loop from to toTest rest started' finished'
  end.

(** [in(range, from, toTest)]. *)
Definition in_ (tr : Tree) (range : TreeSelection.t) (from : option NodeId)
    (toTest : NodeId) : result bool :=
  if negb (isRANGE (type range))
  then Err "The argument 'range' must have a RANGE selection type."
  else
    match from with
    | None => Ok false
    | Some from' =>
        match root tr with
        | None => Ok false
        | Some r =>
            let to := node range in
            if String.eqb from' toTest || String.eqb to toTest then Ok true
            else
              match in_loop from' to toTest (prunedOrder r) false false with
              | Some b => Ok b
              | None => Ok false
              end
        end
    end.

(** The loop of [asArray], [copy] being what is left of the stack. *)
Fixpoint asArray_loop (tr : Tree) (copy : list TreeSelection.t)
    (nodes : list NodeId) (lastSelection : option TreeSelection.t)
  : list NodeId :=
  match copy with
  | [] => nodes
  | sel :: rest =>
      let nodes' :=
        if isRANGE (type sel) then
          let nodes1 :=
            match lastSelection with
            | Some l => if isTOGGLE (type l) then pop nodes else nodes
            | None => nodes
            end in
          nodes1 ++ selectionRange tr (option_map node lastSelection) (node sel)
        else if isTOGGLE (type sel) then nodes ++ [node sel]
        else nodes in
      asArray_loop tr rest nodes' (Some sel)
  end.

Definition asArray (tr : Tree) (state : t) : result (list NodeId) :=
  copy <- checkNoDefaultSelection (selectionStack state) ;;
  Ok (rev (asArray_loop tr copy [] None)).

Definition handleReset (state : t) : t := empty.

Definition handleDefault (state : t) (selectedNode : NodeId) : t :=
  mk [TreeSelection.mk selectedNode (Some TOGGLE)].

(** The first loop of [handleToggle], for [i] from [n - 1] down to
    [0]: [Some] of the new stack when a range is split. *)
Fixpoint handleToggle_split (tr : Tree) (selectedNode : NodeId)
    (copy : list TreeSelection.t) (n : nat) : option (list TreeSelection.t) :=
  match n with
  | 0 => None
  | S i =>
      let lastSelection :=
        match i with
        | 0 => None
        | S j => option_map node (nth_error copy j)
        end in
      match nth_error copy i with
      | None => None
      | Some sel =>
          if isRANGE (type sel) then
            let range := selectionRange tr lastSelection (node sel) in
            let index := indexOf String.eqb range selectedNode in
            if negb (index =? -1)%Z then
              let range' := splice range (Z.to_nat index) 1 [] in
              let rangeSubstitute :=
                map (fun n => TreeSelection.mk n (Some TOGGLE)) range' in
              Some (splice copy i 1 (shift rangeSubstitute))
            else handleToggle_split tr selectedNode copy i
          else handleToggle_split tr selectedNode copy i
      end
  end.

(** The second loop of [handleToggle]: the indices pushed on
    [toRemove], in the order they are pushed. *)
Fixpoint handleToggle_merge (selectedNode : NodeId)
    (copy : list TreeSelection.t) (n : nat) : list nat :=
  match n with
  | 0 => []
  | S i =>
      match nth_error copy i with
      | None => []
      | Some selection =>
          if isRANGE (type selection) then []
          else if String.eqb (node selection) selectedNode
          then i :: handleToggle_merge selectedNode copy i
          else handleToggle_merge selectedNode copy i
      end
  end.

Definition handleToggle (tr : Tree) (state : t) (selectedNode : NodeId)
  : result t :=
  copy <- checkNoDefaultSelection (selectionStack state) ;;
  match handleToggle_split tr selectedNode copy (List.length copy) with
  | Some copy' => Ok (mk copy')
  | None =>
      let toggle := TreeSelection.mk selectedNode (Some TOGGLE) in
      let toRemove := handleToggle_merge selectedNode copy (List.length copy) in
      let copy' := spliceEach toRemove copy in
      if Nat.ltb 0 (List.length toRemove)
      then Ok (mk copy')
      else Ok (mk (copy' ++ [toggle]))
  end.

(** The loop of [handleRange], for [i] from [n - 1] down to [0]: the
    indices pushed on [toRemove] and the array [copy], which is popped
    when its most recent selection is a range. *)
Fixpoint handleRange_loop (tr : Tree) (range : TreeSelection.t)
    (lastSelection : option NodeId) (copy : list TreeSelection.t) (n : nat)
  : result (list nat * list TreeSelection.t) :=
  match n with
  | 0 => Ok ([], copy)
  | S i =>
      match nth_error copy i with
      | None => Ok ([], copy)
      | Some selection =>
          if isRANGE (type selection) then
            if Nat.eqb i (List.length copy - 1)
            then Ok ([], pop copy)
            else Ok ([], copy)
          else
            b <- in_ tr range lastSelection (node selection) ;;
            r <- handleRange_loop tr range lastSelection copy i ;;
            Ok (if b then i :: fst r else fst r, snd r)
      end
  end.

Definition handleRange (tr : Tree) (state : t) (selectedNode : NodeId)
  : result t :=
  copy <- checkNoDefaultSelection (selectionStack state) ;;
  let range := TreeSelection.mk selectedNode (Some RANGE) in
  let lastSelection := option_map node (nth_error copy (List.length copy - 1)) in
  r <- handleRange_loop tr range lastSelection copy (List.length copy) ;;
  let toRemove := shift (fst r) in
  let copy' := spliceEach toRemove (snd r) in
  Ok (mk (copy' ++ [range])).

Definition nextState (tr : Tree) (state : t) (selection : SelectionArg)
  : result t :=
  match selection with
  | reset => Ok (handleReset state)
  | gesture sel =>
      let type' := match type sel with
                   | None => DEFAULT
                   | Some ty => ty
                   end in
      match type' with
      | DEFAULT => Ok (handleDefault state (node sel))
      | TOGGLE => handleToggle tr state (node sel)
      | RANGE => handleRange tr state (node sel)
      end
  end.

End TreeSelectionState.

(** ** The gesture based selection service (second revision of
       [TreeSelectionServiceImpl]) *)

Module TreeSelectionServiceImpl2.

Record t : Type := mk {
  state : TreeSelectionState.t;
  selected : NodeId -> bool;
  fired : list (list NodeId)
}.

Definition selectedNodes (tr : Tree) (svc : t) : result (list NodeId) :=
  TreeSelectionState.asArray tr (state svc).

Definition unselect (nodes : list NodeId) (flags : NodeId -> bool)
  : NodeId -> bool :=
  fun n => if existsb (String.eqb n) nodes then false else flags n.

Definition select (nodes : list NodeId) (flags : NodeId -> bool)
  : NodeId -> bool :=
  fun n => if existsb (String.eqb n) nodes then true else flags n.

Definition addSelection (tr : Tree) (svc : t) (selection : SelectionArg)
  : result t :=
  let invalid :=
    match selection with
    | reset => false
    | gesture sel =>
        match validateNode tr (Some (TreeSelection.node sel)) with
        | None => true
        | Some _ => false
        end
    end in
  if invalid then Ok svc
  else
    let oldState := state svc in
    newState <- TreeSelectionState.nextState tr (state svc) selection ;;
    oldNodes <- TreeSelectionState.asArray tr oldState ;;
    newNodes <- TreeSelectionState.asArray tr newState ;;
    let toUnselect := difference String.eqb oldNodes newNodes in
    let toSelect := difference String.eqb newNodes oldNodes in
    if Nat.eqb (List.length toUnselect) 0 && Nat.eqb (List.length toSelect) 0
    then Ok svc
    else
      Ok (mk newState
             (select toSelect (unselect toUnselect (selected svc)))
             (newNodes :: fired svc)).

End TreeSelectionServiceImpl2.

(** ** Runs of the state machine and the statements about them *)

Import TreeSelection.

Definition toggleOf (n : NodeId) : TreeSelection.t :=
  TreeSelection.mk n (Some TOGGLE).
Definition rangeOf (n : NodeId) : TreeSelection.t :=
  TreeSelection.mk n (Some RANGE).
Definition defaultOf (n : NodeId) : TreeSelection.t :=
  TreeSelection.mk n (Some DEFAULT).

(** [state.nextState(g1).nextState(g2)...]. *)
Fixpoint nextStates (tr : Tree) (state : TreeSelectionState.t)
    (selections : list SelectionArg) : result TreeSelectionState.t :=
  match selections with
  | [] => Ok state
  | selection :: rest =>
      state' <- TreeSelectionState.nextState tr state selection ;;
      nextStates tr state' rest
  end.

(** The states reachable from the empty one by [nextState]; the tree is
    a collaborator that may have changed between two transitions. *)
Inductive reachable : TreeSelectionState.t -> Prop :=
| reachable_empty : reachable TreeSelectionState.empty
| reachable_next (tr : Tree) (state state' : TreeSelectionState.t)
    (selection : SelectionArg) :
    reachable state ->
    TreeSelectionState.nextState tr state selection = Ok state' ->
    reachable state'.

(** The stack holds no [DEFAULT] gesture (and none without a type). *)
Definition noDefault (stack : list TreeSelection.t) : Prop :=
  forall sel, In sel stack ->
    type sel = Some TOGGLE \/ type sel = Some RANGE.

(** Every [RANGE] above the bottom of the stack sits on a [TOGGLE]. *)
Definition rangeOnToggle (stack : list TreeSelection.t) : Prop :=
  forall i prev sel,
    nth_error stack i = Some prev ->
    nth_error stack (S i) = Some sel ->
    type sel = Some RANGE -> type prev = Some TOGGLE.

(** A [RANGE] gesture is never the first element of the stack. *)
Definition rangeNeverFirst (stack : list TreeSelection.t) : Prop :=
  forall sel, nth_error stack 0 = Some sel -> type sel <> Some RANGE.

(** The selection that follows the words of the specification for
    [setSelection]: [reset], then one [DEFAULT] gesture per node, the
    nodes being taken in reverse order. *)
Definition setSelection_gestures (tr : Tree) (state : TreeSelectionState.t)
    (nodes : list NodeId) : result (list NodeId) :=
  state' <- nextStates tr state
              (reset :: map (fun n => gesture (defaultOf n)) (rev nodes)) ;;
  TreeSelectionState.asArray tr state'.

(** The selection that follows the words of the specification for
    [selectRange] with [preserveSelection]: the range, [from] first and
    [to] last, in front of the prior selection without the nodes of the
    range. *)
Definition selectRange_claimed (tr : Tree) (prior : list NodeId)
    (toNode fromNode : NodeId) : list NodeId :=
  let range := TreeModelImpl.selectionRange tr toNode (Some fromNode) in
  range ++ filter (fun n => negb (existsb (String.eqb n) range)) prior.

(** The position of the first [x] in [order] ([length order] if none). *)
Fixpoint position (x : NodeId) (order : list NodeId) : nat :=
  match order with
  | [] => 0
  | y :: rest => if String.eqb y x then 0 else S (position x rest)
  end.

(** The nodes of [order] from [a] to [b], both included, listed from [a]
    to [b]. *)
Definition between (order : list NodeId) (a b : NodeId) : list NodeId :=
  let ia := position a order in
  let ib := position b order in
  if Nat.leb ia ib
  then firstn (ib - ia + 1) (skipn ia order)
  else rev (firstn (ia - ib + 1) (skipn ib order)).

(** A service of the first revision with nothing selected. *)
Definition noSelection : TreeSelectionServiceImpl.t :=
  TreeSelectionServiceImpl.mk [] (fun _ => false) [].

(** Every gesture of the stack is a [TOGGLE] or a [RANGE]: what
    [checkNoDefaultSelection] accepts. *)
Definition typed (stack : list TreeSelection.t) : bool :=
  forallb (fun sel => isTOGGLE (type sel) || isRANGE (type sel)) stack.

(** Every [RANGE] of [stack] sits on a [TOGGLE]; [onToggle] tells whether
    the first gesture of [stack] may be a [RANGE], which is so at the
    bottom of the stack and on top of a [TOGGLE]. *)
Fixpoint anchored (onToggle : bool) (stack : list TreeSelection.t) : bool :=
  match stack with
  | [] => true
  | sel :: rest =>
      (if isRANGE (type sel) then onToggle else true)
      && anchored (isTOGGLE (type sel)) rest
  end.

(** Whether a [RANGE] may be pushed on [stack]. *)
Fixpoint topIsToggle (onToggle : bool) (stack : list TreeSelection.t) : bool :=
  match stack with
  | [] => onToggle
  | sel :: rest => topIsToggle (isTOGGLE (type sel)) rest
  end.

(** The indices pushed by a loop that counts down. *)
Fixpoint descending (indices : list nat) : Prop :=
  match indices with
  | [] => True
  | i :: rest => Forall (fun j => j < i) rest /\ descending rest
  end.

(** No node of [l] is one of the two ends [from] and [to] of a range. *)
Definition apart (from to : NodeId) (l : list NodeId) : Prop :=
  forall x, In x l -> x <> from /\ x <> to.

(** [a] is the first or the last node of [l]. *)
Definition atAnEnd (a : NodeId) (l : list NodeId) : Prop :=
  (exists l', l = a :: l') \/ (exists l', l = l' ++ [a]).

(** The mock tree after [collapseNode] on the nodes named in [ids]. *)
Definition mockTreeCollapsed (ids : list NodeId) : Tree :=
  mkTree (Some (collapseNodes ids MOCK_ROOT)).

(** ** Messages ([MessageService] and [NotificationsMessageClient]) *)

Module MessageService.

(** The members of [MessageType] that the sources name. *)
Inductive MessageType : Type := Error | Warning | Info | Log.

(** [MessageOptions]: an optional [timeout]. *)
Record MessageOptions : Type := mkOptions { timeout : option Z }.

(** What the rest parameter [...args: any[]] of [log], [info] and [warn]
    can hold for the declared overloads: an action label, an options
    object, or an [undefined] passed for the optional options. *)
Inductive Arg : Type :=
| Action (label : string)
| Options (o : MessageOptions)
| Undefined.

(** The object handed to [client.showMessage]. *)
Record Message : Type := mkMessage {
  type : MessageType;
  options : option MessageOptions;
  text : string;
  actions : option (list Arg)
}.

(** [if (args[1])]: what JavaScript takes for true. *)
Definition truthy (a : option Arg) : bool :=
  match a with
  | Some (Action label) => negb (String.eqb label "")
  | Some (Options _) => true
  | Some Undefined => false
  | None => false
  end.

(** [args[0]['timeout']]: a string has no such property, reading it off
    [undefined] throws. *)
Definition timeoutOf (a : Arg) : result (option Z) :=
  match a with
  | Action _ => Ok None
  | Options o => Ok (timeout o)
  | Undefined => Err "TypeError: Cannot read property 'timeout' of undefined"
  end.

Definition processArgs (messageType : MessageType) (messageText : string)
    (args : list Arg) : result Message :=
  match args with
  | arg0 :: _ =>
      t <- timeoutOf arg0 ;;
      match t with
      | Some timeoutvalue =>
          let actionsValue :=
            if truthy (nth_error args 1) then Some (skipn 1 args) else None in
          Ok (mkMessage messageType (Some (mkOptions (Some timeoutvalue)))
                messageText actionsValue)
      | None =>
          Ok (mkMessage messageType (Some (mkOptions None)) messageText
                (Some args))
      end
  | [] => Ok (mkMessage messageType None messageText None)
  end.

Definition log (message : string) (args : list Arg) : result Message :=
  processArgs Log message args.

Definition info (message : string) (args : list Arg) : result Message :=
  processArgs Info message args.

Definition warn (message : string) (args : list Arg) : result Message :=
  processArgs Warning message args.

End MessageService.

Module NotificationsMessageClient.

Import MessageService.

(** A button of the notification: [fn] calls [onCloseFn] with
    [closesWith], which is what the promise of [show] resolves to. *)
Record NotificationAction : Type := mkAction {
  label : Arg;
  closesWith : option Arg
}.

(** The object handed to [notifications.show]. *)
Record NotificationProperties : Type := mkProperties {
  icon : string;
  text : string;
  actions : list NotificationAction;
  timeout : option Z
}.

Definition iconFor (type : MessageType) : string :=
  match type with
  | Error => "error"
  | Warning => "warning"
  | _ => "info"
  end.

(** [preference] is [this.preferences['notification.timeout']]. *)
Definition showToast (preference : Z) (message : Message)
  : NotificationProperties :=
  let icon := iconFor (MessageService.type message) in
  let text := MessageService.text message in
  let actions :=
    map (fun action => mkAction action (Some action))
      (match MessageService.actions message with
       | Some l => l
       | None => []
       end) in
  let timeout :=
    match MessageService.actions message with
    | Some _ => None
    | None =>
        match MessageService.options message with
        | Some o => MessageService.timeout o
        | None => Some preference
        end
    end in
  mkProperties icon text (actions ++ [mkAction (Action "Close") None]) timeout.

End NotificationsMessageClient.

(** ** Statements about the list based service and the tree model *)

(** The [selected] flags on the nodes agree with the selected list. *)
Definition flagsAgree (svc : TreeSelectionServiceImpl.t) : Prop :=
  forall n, TreeSelectionServiceImpl.selected svc n = true
            <-> In n (TreeSelectionServiceImpl.selectedNodes svc).

(** Every node of [nodes] is a selectable node of the tree. *)
Definition selectionValid (tr : Tree) (nodes : list NodeId) : Prop :=
  forall n, In n nodes ->
    validateNode tr (Some n) = Some n /\ SelectableTreeNode_is tr n = true.

(** The operations of the tree model that touch the selection. *)
Inductive ModelOp : Type :=
| OpSetSelection (nodes : list NodeId)
| OpSelectNode (node : NodeId) (preserveSelection : bool)
| OpUnselectNode (node : NodeId)
| OpToggleSelection (node : NodeId)
| OpSelectRange (toNode : NodeId) (fromNode : option NodeId)
    (preserveSelection : bool)
| OpExpansionChanged (node : NodeId).

Definition applyOp (tr : Tree) (svc : TreeSelectionServiceImpl.t)
    (op : ModelOp) : TreeSelectionServiceImpl.t :=
  match op with
  | OpSetSelection nodes => TreeSelectionServiceImpl.setSelection tr svc nodes
  | OpSelectNode node preserve => TreeModelImpl.selectNode tr svc node preserve
  | OpUnselectNode node => TreeModelImpl.unselectNode tr svc node
  | OpToggleSelection node => TreeModelImpl.toggleSelection tr svc node
  | OpSelectRange toNode fromNode preserve =>
      TreeModelImpl.selectRange tr svc toNode fromNode preserve
  | OpExpansionChanged node => TreeModelImpl.onExpansionChanged tr svc node
  end.

(** The flags of the gesture based service agree with its projection. *)
Definition flagsAgree2 (tr : Tree) (svc : TreeSelectionServiceImpl2.t) : Prop :=
  exists nodes,
    TreeSelectionState.asArray tr (TreeSelectionServiceImpl2.state svc)
      = Ok nodes
    /\ forall n, TreeSelectionServiceImpl2.selected svc n = true <-> In n nodes.


(** * Properties *)

(** ** Arrays *)

Lemma indexOf_lower (arr : list NodeId) (x : NodeId) :
  (-1 <= indexOf String.eqb arr x)%Z.
Proof.
  induction arr as [|y rest IH]; simpl; [lia|].
  destruct (String.eqb y x); [lia|].
  destruct (indexOf String.eqb rest x =? -1)%Z; lia.
Qed.

Lemma indexOf_absent (arr : list NodeId) (x : NodeId) :
  indexOf String.eqb arr x = (-1)%Z <-> ~ In x arr.
Proof.
  induction arr as [|y rest IH]; simpl.
  - split; [intros _ [] | reflexivity].
  - pose proof (indexOf_lower rest x) as Hlow.
    destruct (String.eqb_spec y x) as [->|Hne].
    + split; [discriminate | intros H; exfalso; apply H; now left].
    + destruct (indexOf String.eqb rest x =? -1)%Z eqn:E.
      * apply Z.eqb_eq in E. split; [|reflexivity].
        intros _ [H|H]; [congruence | now apply IH].
      * apply Z.eqb_neq in E. split; [lia|].
        intros H. exfalso. apply E, IH. intros Hin. apply H. now right.
Qed.

Lemma indexOf_found (arr : list NodeId) (x : NodeId) :
  In x arr <-> (0 <= indexOf String.eqb arr x)%Z.
Proof.
  pose proof (indexOf_lower arr x). pose proof (indexOf_absent arr x) as [H1 H2].
  split.
  - intros Hin. destruct (Z.eq_dec (indexOf String.eqb arr x) (-1)) as [E|E];
      [now apply H1 in E | lia].
  - intros Hge. destruct (in_dec string_dec x arr) as [Hin|Hnin];
      [assumption | apply H2 in Hnin; lia].
Qed.

Lemma difference_nil (left right : list NodeId) :
  (forall n, In n left -> In n right) ->
  difference String.eqb left right = [].
Proof.
  intros Hsub. unfold difference.
  induction left as [|x rest IH]; simpl; [reflexivity|].
  assert (Hx : In x right) by (apply Hsub; now left).
  apply indexOf_found in Hx.
  destruct (indexOf String.eqb right x =? -1)%Z eqn:E.
  - apply Z.eqb_eq in E. lia.
  - apply IH. intros n Hn. apply Hsub. now right.
Qed.

Lemma filter_all (A : Type) (f : A -> bool) (l : list A) :
  (forall x, In x l -> f x = true) -> filter f l = l.
Proof.
  induction l as [|x rest IH]; simpl; intros H; [reflexivity|].
  rewrite (H x (or_introl eq_refl)). f_equal. apply IH.
  intros y Hy. apply H. now right.
Qed.

Lemma reachable_nextStates (tr : Tree) (selections : list SelectionArg)
    (state state' : TreeSelectionState.t) :
  reachable state ->
  nextStates tr state selections = Ok state' ->
  reachable state'.
Proof.
  revert state. induction selections as [|g rest IH]; simpl; intros state Hr H.
  - now inversion H; subst.
  - destruct (TreeSelectionState.nextState tr state g) as [mid|] eqn:E;
      simpl in H; [|discriminate].
    apply (IH mid); [|assumption].
    exact (@reachable_next tr state mid g Hr E).
Qed.

(** ** The scenario of the second state test *)

(** C5: on the mock tree, TOGGLE 1.1, TOGGLE 1.2.1.1, RANGE 1.2.3,
    RANGE 1.2.1.2 from the empty state gives the selection
    [1.2.1.2, 1.2.1.1, 1.1]. *)
Theorem scenario_S2_projection :
  (state <- nextStates mockTree TreeSelectionState.empty
              [ gesture (toggleOf "1.1"); gesture (toggleOf "1.2.1.1");
                gesture (rangeOf "1.2.3"); gesture (rangeOf "1.2.1.2") ] ;;
   TreeSelectionState.asArray mockTree state)
  = Ok ["1.2.1.2"; "1.2.1.1"; "1.1"].
Proof. vm_compute. reflexivity. Qed.

(** ** A range without an anchor *)

(** C6: a RANGE gesture applied to the empty stack does not fail; the
    state it returns holds that gesture alone and selects nothing. *)
Theorem range_on_empty_stack (tr : Tree) (n : NodeId) :
  TreeSelectionState.nextState tr TreeSelectionState.empty (gesture (rangeOf n))
    = Ok (TreeSelectionState.mk [rangeOf n])
  /\ TreeSelectionState.asArray tr (TreeSelectionState.mk [rangeOf n]) = Ok [].
Proof. split; reflexivity. Qed.

(** ** Duplicates in the projection *)

(** C1: TOGGLE 1.3, TOGGLE 1.1, RANGE 1.1.2, TOGGLE 1.3 reaches a state
    on the mock tree whose projection lists 1.3 twice: the toggle below
    the range is neither merged nor removed. *)
Theorem projection_with_duplicate :
  exists state,
    reachable state
    /\ nextStates mockTree TreeSelectionState.empty
         [ gesture (toggleOf "1.3"); gesture (toggleOf "1.1");
           gesture (rangeOf "1.1.2"); gesture (toggleOf "1.3") ] = Ok state
    /\ TreeSelectionState.asArray mockTree state
       = Ok ["1.3"; "1.1.2"; "1.1.1"; "1.1"; "1.3"]
    /\ ~ NoDup ["1.3"; "1.1.2"; "1.1.1"; "1.1"; "1.3"].
Proof.
  eexists. split; [|split; [vm_compute; reflexivity | split]].
  - apply (reachable_nextStates mockTree
             [ gesture (toggleOf "1.3"); gesture (toggleOf "1.1");
               gesture (rangeOf "1.1.2"); gesture (toggleOf "1.3") ]
             reachable_empty).
    vm_compute. reflexivity.
  - vm_compute. reflexivity.
  - intros H. inversion H as [|x l Hnin _]; subst. apply Hnin.
    simpl. auto.
Qed.

(** ** The two ways of setting a selection *)

Lemma nextStates_defaults (tr : Tree) (nodes : list NodeId) (n : NodeId)
    (state : TreeSelectionState.t) :
  nextStates tr state (map (fun n => gesture (defaultOf n)) (nodes ++ [n]))
  = Ok (TreeSelectionState.mk [toggleOf n]).
Proof.
  revert state. induction nodes as [|m rest IH]; intros state; simpl.
  - reflexivity.
  - apply IH.
Qed.

Lemma setSelection_valid (tr : Tree) (svc : TreeSelectionServiceImpl.t)
    (nodes : list NodeId) :
  (forall n, In n nodes ->
     validateNode tr (Some n) = Some n /\ SelectableTreeNode_is tr n = true) ->
  TreeSelectionServiceImpl.selectedNodes
    (TreeSelectionServiceImpl.setSelection tr svc nodes) = nodes.
Proof.
  intros Hvalid. unfold TreeSelectionServiceImpl.setSelection,
    TreeSelectionServiceImpl.doSelectNodes,
    TreeSelectionServiceImpl.selectedNodes.
  cbn [TreeSelectionServiceImpl._selectedNodes].
  rewrite (@filter_all _ _ nodes).
  - apply filter_all. intros n Hn. now apply Hvalid.
  - intros n Hn. destruct (Hvalid n Hn) as [Hv _]. cbv beta.
    now rewrite Hv.
Qed.

(** C3, as the code has it: for valid selectable nodes the list based
    [setSelection] selects exactly the given list, while [reset] followed
    by one DEFAULT gesture per node in reverse order selects the first of
    the given nodes only, each DEFAULT gesture replacing the whole stack. *)
Theorem setSelection_gestures_keep_first (tr : Tree)
    (svc : TreeSelectionServiceImpl.t) (state : TreeSelectionState.t)
    (nodes : list NodeId) :
  (forall n, In n nodes ->
     validateNode tr (Some n) = Some n /\ SelectableTreeNode_is tr n = true) ->
  TreeSelectionServiceImpl.selectedNodes
    (TreeSelectionServiceImpl.setSelection tr svc nodes) = nodes
  /\ setSelection_gestures tr state nodes = Ok (firstn 1 nodes).
Proof.
  intros Hvalid. split; [now apply setSelection_valid|].
  unfold setSelection_gestures. destruct nodes as [|n rest].
  - reflexivity.
  - cbn [rev nextStates TreeSelectionState.nextState bind firstn].
    rewrite nextStates_defaults. reflexivity.
Qed.

Lemma setSelection_gestures_keep_first_witness :
  (forall n, In n ["1.1"; "1.2"] ->
     validateNode mockTree (Some n) = Some n
     /\ SelectableTreeNode_is mockTree n = true)
  /\ TreeSelectionServiceImpl.selectedNodes
       (TreeSelectionServiceImpl.setSelection mockTree noSelection
          ["1.1"; "1.2"]) = ["1.1"; "1.2"]
  /\ setSelection_gestures mockTree TreeSelectionState.empty ["1.1"; "1.2"]
     = Ok ["1.1"].
Proof.
  assert (H : forall n, In n ["1.1"; "1.2"] ->
     validateNode mockTree (Some n) = Some n
     /\ SelectableTreeNode_is mockTree n = true).
  { intros n [<-|[<-|[]]]; split; reflexivity. }
  split; [exact H|].
  exact (setSelection_gestures_keep_first mockTree noSelection
           TreeSelectionState.empty ["1.1"; "1.2"] H).
Defined.

(** C3 as stated fails: for the valid selectable nodes 1.1 and 1.2 of
    the mock tree the list based [setSelection] selects both, the gesture
    sequence selects 1.1 alone. *)
Lemma setSelection_implementations_differ :
  (forall n, In n ["1.1"; "1.2"] ->
     validateNode mockTree (Some n) = Some n
     /\ SelectableTreeNode_is mockTree n = true)
  /\ Ok (TreeSelectionServiceImpl.selectedNodes
          (TreeSelectionServiceImpl.setSelection mockTree noSelection
             ["1.1"; "1.2"]))
     <> setSelection_gestures mockTree TreeSelectionState.empty ["1.1"; "1.2"]
  /\ setSelection_gestures mockTree TreeSelectionState.empty ["1.1"; "1.2"]
     <> Ok ["1.1"; "1.2"].
Proof.
  split; [|split].
  - intros n [<-|[<-|[]]]; split; reflexivity.
  - vm_compute. discriminate.
  - vm_compute. discriminate.
Qed.

(** ** Gestures that do not change the selected set *)

(** C10: when the projection after a valid gesture has the same nodes as
    the projection before it, [addSelection] returns the service as it
    was: the state and its stack are not replaced, no event is fired, and
    any later transition starts from the old state. *)
Theorem addSelection_same_set_is_discarded (tr : Tree)
    (svc : TreeSelectionServiceImpl2.t) (sel : TreeSelection.t)
    (newState : TreeSelectionState.t) (oldNodes newNodes : list NodeId) :
  validateNode tr (Some (node sel)) = Some (node sel) ->
  TreeSelectionState.nextState tr (TreeSelectionServiceImpl2.state svc) (gesture sel)
    = Ok newState ->
  TreeSelectionState.asArray tr (TreeSelectionServiceImpl2.state svc) = Ok oldNodes ->
  TreeSelectionState.asArray tr newState = Ok newNodes ->
  (forall n, In n oldNodes <-> In n newNodes) ->
  exists svc',
    TreeSelectionServiceImpl2.addSelection tr svc (gesture sel) = Ok svc'
    /\ svc' = svc
    /\ TreeSelectionState.selectionStack (TreeSelectionServiceImpl2.state svc')
       = TreeSelectionState.selectionStack (TreeSelectionServiceImpl2.state svc)
    /\ TreeSelectionServiceImpl2.fired svc' = TreeSelectionServiceImpl2.fired svc
    /\ forall tr' later,
         TreeSelectionState.nextState tr' (TreeSelectionServiceImpl2.state svc') later
         = TreeSelectionState.nextState tr' (TreeSelectionServiceImpl2.state svc) later.
Proof.
  intros Hvalid Hnext Hold Hnew Hsame.
  exists svc. split; [|repeat split; reflexivity].
  unfold TreeSelectionServiceImpl2.addSelection.
  rewrite Hvalid, Hnext. cbn [bind]. rewrite Hold, Hnew. cbn [bind].
  rewrite !difference_nil; [reflexivity| |]; intros n Hn; now apply Hsame.
Qed.

Lemma addSelection_same_set_is_discarded_witness :
  exists svc',
    TreeSelectionServiceImpl2.addSelection mockTree
      (TreeSelectionServiceImpl2.mk
         (TreeSelectionState.mk [toggleOf "1.1"; toggleOf "1.1.1"])
         (fun _ => false) [])
      (gesture (rangeOf "1.1")) = Ok svc'
    /\ TreeSelectionState.selectionStack (TreeSelectionServiceImpl2.state svc')
       = [toggleOf "1.1"; toggleOf "1.1.1"]
    /\ TreeSelectionServiceImpl2.fired svc' = [].
Proof.
  destruct (@addSelection_same_set_is_discarded mockTree
              (TreeSelectionServiceImpl2.mk
                 (TreeSelectionState.mk [toggleOf "1.1"; toggleOf "1.1.1"])
                 (fun _ => false) [])
              (rangeOf "1.1")
              (TreeSelectionState.mk [toggleOf "1.1.1"; rangeOf "1.1"])
              ["1.1.1"; "1.1"] ["1.1"; "1.1.1"])
    as [svc' [Hadd [_ [Hstack [Hfired _]]]]].
  - reflexivity.
  - vm_compute. reflexivity.
  - vm_compute. reflexivity.
  - vm_compute. reflexivity.
  - intros n. simpl. tauto.
  - exists svc'. split; [exact Hadd | split; [exact Hstack | exact Hfired]].
Defined.

(** ** Collapsing a node above selected nodes *)

(** C8: when the expansion event reports a node that is not expanded,
    that has a selected descendant and that is itself visible and
    selectable, the selection becomes exactly that node; when no selected
    node is a descendant, or the node is not visible and selectable, the
    service is left as it was. *)
Theorem collapse_reconciliation (tr : Tree) (svc : TreeSelectionServiceImpl.t)
    (e : NodeId) :
  (notExpanded tr e = true ->
   (exists s, In s (TreeSelectionServiceImpl.selectedNodes svc)
              /\ isAncestor tr e s = true) ->
   SelectableTreeNode_isVisible tr e = true ->
   TreeSelectionServiceImpl.selectedNodes
     (TreeModelImpl.onExpansionChanged tr svc e) = [e])
  /\ ((forall s, In s (TreeSelectionServiceImpl.selectedNodes svc) ->
                 isAncestor tr e s = false)
      \/ SelectableTreeNode_isVisible tr e = false ->
      TreeModelImpl.onExpansionChanged tr svc e = svc).
Proof.
  unfold TreeModelImpl.onExpansionChanged. split.
  - intros Hcollapsed [s [Hsel Hanc]] Hvis.
    assert (Hex : existsb (fun selectedNode => isAncestor tr e selectedNode)
                    (TreeSelectionServiceImpl.selectedNodes svc) = true).
    { apply existsb_exists. now exists s. }
    rewrite Hcollapsed, Hex, Hvis. cbn [andb].
    apply setSelection_valid. intros n [<-|[]].
    unfold SelectableTreeNode_isVisible in Hvis.
    apply andb_true_iff in Hvis as [His _]. split; [|exact His].
    unfold isAncestor in Hanc. unfold validateNode.
    destruct (getNode tr e); [reflexivity | discriminate].
  - intros [Hnone|Hhidden].
    + assert (Hex : existsb (fun selectedNode => isAncestor tr e selectedNode)
                      (TreeSelectionServiceImpl.selectedNodes svc) = false).
      { destruct (existsb _ _) eqn:E; [|reflexivity].
        apply existsb_exists in E as [s [Hin Hanc]].
        rewrite (Hnone s Hin) in Hanc. discriminate. }
      rewrite Hex, andb_false_r. reflexivity.
    + rewrite Hhidden. now destruct (_ && _).
Qed.

Lemma collapse_reconciliation_witness :
  notExpanded (mockTreeCollapsed ["1.2"]) "1.2" = true
  /\ (exists s, In s ["1.2.1.1"; "1.1"]
                /\ isAncestor (mockTreeCollapsed ["1.2"]) "1.2" s = true)
  /\ SelectableTreeNode_isVisible (mockTreeCollapsed ["1.2"]) "1.2" = true
  /\ TreeSelectionServiceImpl.selectedNodes
       (TreeModelImpl.onExpansionChanged (mockTreeCollapsed ["1.2"])
          (TreeSelectionServiceImpl.mk ["1.2.1.1"; "1.1"] (fun _ => false) [])
          "1.2") = ["1.2"]
  /\ TreeModelImpl.onExpansionChanged (mockTreeCollapsed ["1.3"])
       (TreeSelectionServiceImpl.mk ["1.2.1.1"; "1.1"] (fun _ => false) [])
       "1.3"
     = TreeSelectionServiceImpl.mk ["1.2.1.1"; "1.1"] (fun _ => false) [].
Proof.
  assert (H1 : notExpanded (mockTreeCollapsed ["1.2"]) "1.2" = true)
    by reflexivity.
  assert (H2 : exists s, In s ["1.2.1.1"; "1.1"]
                /\ isAncestor (mockTreeCollapsed ["1.2"]) "1.2" s = true).
  { exists "1.2.1.1". split; [now left | reflexivity]. }
  assert (H3 : SelectableTreeNode_isVisible (mockTreeCollapsed ["1.2"]) "1.2"
               = true) by reflexivity.
  split; [exact H1|]. split; [exact H2|]. split; [exact H3|]. split.
  - exact (proj1 (collapse_reconciliation (mockTreeCollapsed ["1.2"])
                    (TreeSelectionServiceImpl.mk ["1.2.1.1"; "1.1"]
                       (fun _ => false) []) "1.2") H1 H2 H3).
  - apply (proj2 (collapse_reconciliation (mockTreeCollapsed ["1.3"])
                    (TreeSelectionServiceImpl.mk ["1.2.1.1"; "1.1"]
                       (fun _ => false) []) "1.3")).
    left. intros s [<-|[<-|[]]]; reflexivity.
Defined.

(** ** The range scan *)

Section RangeScan.
Variables from to : NodeId.

Lemma loop_finished (it : list NodeId) (started : bool) (range : list NodeId) :
  selectionRange_loop from to it started true range = range.
Proof. destruct it; reflexivity. Qed.

Lemma loop_before (pre rest range : list NodeId) :
  apart from to pre ->
  selectionRange_loop from to (pre ++ rest) false false range
  = selectionRange_loop from to rest false false range.
Proof.
  induction pre as [|x pre IH]; intros Hpre; [reflexivity|].
  destruct (Hpre x (or_introl eq_refl)) as [Hf Ht].
  apply String.eqb_neq in Hf, Ht. simpl. rewrite Hf, Ht. simpl.
  apply IH. intros y Hy. apply Hpre. now right.
Qed.

Lemma loop_inside (mid rest range : list NodeId) :
  apart from to mid ->
  selectionRange_loop from to (mid ++ rest) true false range
  = selectionRange_loop from to rest true false (range ++ mid).
Proof.
  revert range. induction mid as [|x mid IH]; intros range Hmid.
  - now rewrite app_nil_r.
  - destruct (Hmid x (or_introl eq_refl)) as [Hf Ht].
    apply String.eqb_neq in Hf, Ht. simpl. rewrite Hf, Ht. simpl.
    rewrite IH by (intros y Hy; apply Hmid; now right).
    now rewrite <- app_assoc.
Qed.

Lemma loop_first (x : NodeId) (rest range : list NodeId) :
  x = from \/ x = to ->
  selectionRange_loop from to (x :: rest) false false range
  = selectionRange_loop from to rest true false (range ++ [x]).
Proof.
  intros Hx. simpl.
  assert (H : String.eqb x from || String.eqb x to = true).
  { destruct Hx as [->| ->]; rewrite String.eqb_refl;
      [reflexivity | apply orb_true_r]. }
  now rewrite H.
Qed.

Lemma loop_second (y : NodeId) (rest range : list NodeId) :
  y = from \/ y = to ->
  selectionRange_loop from to (y :: rest) true false range = range ++ [y].
Proof.
  intros Hy. simpl.
  assert (H : String.eqb y from || String.eqb y to = true).
  { destruct Hy as [->| ->]; rewrite String.eqb_refl;
      [reflexivity | apply orb_true_r]. }
  rewrite H. apply loop_finished.
Qed.

(** Both ends are met: the scan returns the stretch between them. *)
Lemma loop_both (pre mid post : list NodeId) (x y : NodeId) :
  apart from to pre -> apart from to mid ->
  x = from \/ x = to -> y = from \/ y = to ->
  selectionRange_loop from to (pre ++ x :: mid ++ y :: post) false false []
  = x :: mid ++ [y].
Proof.
  intros Hpre Hmid Hx Hy.
  rewrite loop_before, loop_first, loop_inside, loop_second by assumption.
  reflexivity.
Qed.

(** One end only is met: the scan runs to the end of the tree. *)
Lemma loop_one (pre mid : list NodeId) (x : NodeId) :
  apart from to pre -> apart from to mid ->
  x = from \/ x = to ->
  selectionRange_loop from to (pre ++ x :: mid) false false [] = x :: mid.
Proof.
  intros Hpre Hmid Hx.
  rewrite loop_before, loop_first by assumption.
  rewrite <- (app_nil_r mid) at 1. rewrite loop_inside by assumption.
  reflexivity.
Qed.

(** No end is met. *)
Lemma loop_none (pre : list NodeId) :
  apart from to pre ->
  selectionRange_loop from to pre false false [] = [].
Proof.
  intros Hpre. rewrite <- (app_nil_r pre). now rewrite loop_before.
Qed.

End RangeScan.

Lemma loop_started_shape (from to : NodeId) (it range : list NodeId) :
  exists mid,
    apart from to mid
    /\ (selectionRange_loop from to it true false range = range ++ mid
        \/ exists y, (y = from \/ y = to)
             /\ selectionRange_loop from to it true false range
                = range ++ mid ++ [y]).
Proof.
  revert range. induction it as [|x it IH]; intros range.
  - exists []. split; [intros ? []|]. left. now rewrite app_nil_r.
  - destruct (String.eqb_spec x from) as [Hf|Hf].
    { exists []. split; [intros ? []|]. right. exists x.
      split; [now left|]. apply loop_second. now left. }
    destruct (String.eqb_spec x to) as [Ht|Ht].
    { exists []. split; [intros ? []|]. right. exists x.
      split; [now right|]. apply loop_second. now right. }
    destruct (IH (range ++ [x])) as (mid & Hmid & Hshape).
    exists (x :: mid). split.
    + intros z [<-|Hz]; [now split | now apply Hmid].
    + assert (Hstep : selectionRange_loop from to (x :: it) true false range
                      = selectionRange_loop from to it true false (range ++ [x])).
      { simpl. apply String.eqb_neq in Hf, Ht. now rewrite Hf, Ht. }
      rewrite Hstep. destruct Hshape as [->|(y & Hy & ->)].
      * left. now rewrite <- app_assoc.
      * right. exists y. split; [assumption|]. now rewrite <- app_assoc.
Qed.

(** What the scan returns: nothing, or a stretch that starts at one end
    and either runs to the end of the tree or stops at an end. *)
Lemma loop_shape (from to : NodeId) (it : list NodeId) :
  selectionRange_loop from to it false false [] = []
  \/ exists x mid,
       (x = from \/ x = to) /\ apart from to mid
       /\ (selectionRange_loop from to it false false [] = x :: mid
           \/ exists y, (y = from \/ y = to)
                /\ selectionRange_loop from to it false false []
                   = x :: mid ++ [y]).
Proof.
  induction it as [|x it IH]; [now left|].
  destruct (String.eqb_spec x from) as [Hf|Hf];
    [|destruct (String.eqb_spec x to) as [Ht|Ht]].
  3:{ assert (Hstep : selectionRange_loop from to (x :: it) false false []
                      = selectionRange_loop from to it false false []).
      { simpl. apply String.eqb_neq in Hf, Ht. now rewrite Hf, Ht. }
      rewrite Hstep. exact IH. }
  all: right; exists x;
    destruct (loop_started_shape from to it [x]) as (mid & Hmid & Hshape);
    exists mid; (split; [auto|]); (split; [assumption|]);
    rewrite loop_first by auto; exact Hshape.
Qed.

Lemma apart_sym (from to : NodeId) (l : list NodeId) :
  apart from to l -> apart to from l.
Proof. intros H x Hx. destruct (H x Hx). now split. Qed.

Lemma apart_intro (from to : NodeId) (l : list NodeId) :
  ~ In from l -> ~ In to l -> apart from to l.
Proof. intros Hf Ht x Hx. split; intros ->; contradiction. Qed.

Lemma indexOf_here (x : NodeId) (l : list NodeId) :
  indexOf String.eqb (x :: l) x = 0%Z.
Proof. simpl. now rewrite String.eqb_refl. Qed.

Lemma indexOf_after (pre rest : list NodeId) (x : NodeId) :
  ~ In x pre ->
  indexOf String.eqb (pre ++ x :: rest) x = Z.of_nat (List.length pre).
Proof.
  induction pre as [|y pre IH]; intros Hnin.
  - apply indexOf_here.
  - cbn [app indexOf List.length].
    destruct (String.eqb_spec y x) as [->|_];
      [exfalso; apply Hnin; now left|].
    rewrite IH by (intros H; apply Hnin; now right).
    destruct (Z.of_nat (List.length pre) =? -1)%Z eqn:E;
      [apply Z.eqb_eq in E|]; lia.
Qed.

Lemma position_after (pre rest : list NodeId) (x : NodeId) :
  ~ In x pre -> position x (pre ++ x :: rest) = List.length pre.
Proof.
  induction pre as [|y pre IH]; intros Hnin; simpl.
  - now rewrite String.eqb_refl.
  - destruct (String.eqb_spec y x) as [->|_];
      [exfalso; apply Hnin; now left|].
    f_equal. apply IH. intros H. apply Hnin. now right.
Qed.

Lemma stretch_of_order (pre mid post : list NodeId) (x y : NodeId) :
  firstn (List.length pre + S (List.length mid) - List.length pre + 1)
    (skipn (List.length pre) (pre ++ x :: mid ++ y :: post))
  = x :: mid ++ [y].
Proof.
  rewrite skipn_app, skipn_all, Nat.sub_diag. cbn [skipn app].
  replace (List.length pre + S (List.length mid) - List.length pre + 1)
    with (S (List.length mid + 1)) by lia.
  cbn [firstn]. f_equal.
  rewrite firstn_app.
  replace (List.length mid + 1 - List.length mid) with 1 by lia.
  rewrite firstn_all2 by lia. reflexivity.
Qed.

(** The two ranges between [x] and a later [y] of the pruned order. *)
Lemma selectionRange_ordered (tr : Tree) (r : TreeNode)
    (pre mid post : list NodeId) (x y : NodeId) :
  root tr = Some r ->
  prunedOrder r = pre ++ x :: mid ++ y :: post ->
  x <> y ->
  ~ In x pre -> ~ In y pre -> ~ In x mid -> ~ In y mid ->
  validateNode tr (Some x) = Some x ->
  validateNode tr (Some y) = Some y ->
  TreeModelImpl.selectionRange tr y (Some x)
    = filter (SelectableTreeNode_is tr) (x :: mid ++ [y])
  /\ TreeModelImpl.selectionRange tr x (Some y)
    = filter (SelectableTreeNode_is tr) (rev (x :: mid ++ [y]))
  /\ between (prunedOrder r) x y = x :: mid ++ [y]
  /\ between (prunedOrder r) y x = rev (x :: mid ++ [y]).
Proof.
  intros Hroot Horder Hxy Hxp Hyp Hxm Hym Hvx Hvy.
  assert (Hix : indexOf String.eqb (x :: mid ++ [y]) x = 0%Z)
    by apply indexOf_here.
  assert (Hiy : indexOf String.eqb (x :: mid ++ [y]) y
                = Z.of_nat (S (List.length mid))).
  { change (x :: mid ++ [y]) with ((x :: mid) ++ [y]).
    apply indexOf_after. intros [H|H]; [now apply Hxy | contradiction]. }
  assert (Hpx : position x (prunedOrder r) = List.length pre)
    by (rewrite Horder; now apply position_after).
  assert (Hpy : position y (prunedOrder r)
                = List.length pre + S (List.length mid)).
  { rewrite Horder.
    change (pre ++ x :: mid ++ y :: post)
      with (pre ++ (x :: mid) ++ y :: post).
    rewrite app_assoc, position_after.
    - rewrite length_app. reflexivity.
    - intros H. apply in_app_or in H as [H|[H|H]];
        [contradiction | now apply Hxy | contradiction]. }
  repeat split.
  - unfold TreeModelImpl.selectionRange, TreeModelImpl.eqbOpt.
    rewrite (proj2 (String.eqb_neq y x)) by congruence.
    rewrite Hroot, Hvy, Hvx, Horder.
    rewrite loop_both; try (now left); try (now right);
      try (now apply apart_intro).
    unfold orientRange. rewrite Hix, Hiy.
    destruct (0 >? Z.of_nat (S (List.length mid)))%Z eqn:E;
      [apply Z.gtb_lt in E; lia | reflexivity].
  - unfold TreeModelImpl.selectionRange, TreeModelImpl.eqbOpt.
    rewrite (proj2 (String.eqb_neq x y)) by congruence.
    rewrite Hroot, Hvy, Hvx, Horder.
    rewrite loop_both; try (now left); try (now right);
      try (now apply apart_intro).
    unfold orientRange. rewrite Hix, Hiy.
    destruct (Z.of_nat (S (List.length mid)) >? 0)%Z eqn:E;
      [reflexivity | rewrite Z.gtb_ltb in E; apply Z.ltb_ge in E; lia].
  - unfold between. rewrite Hpx, Hpy.
    rewrite (proj2 (Nat.leb_le _ _)) by lia.
    rewrite Horder. apply stretch_of_order.
  - unfold between. rewrite Hpx, Hpy.
    destruct (Nat.leb_spec (List.length pre + S (List.length mid))
                (List.length pre)) as [Hle|_]; [lia|].
    rewrite Horder. f_equal. apply stretch_of_order.
Qed.

Lemma two_nodes_of_order (order : list NodeId) (a b : NodeId) :
  NoDup order -> a <> b -> In a order -> In b order ->
  exists pre mid post x y,
    order = pre ++ x :: mid ++ y :: post
    /\ ((x = a /\ y = b) \/ (x = b /\ y = a))
    /\ ~ In x pre /\ ~ In y pre /\ ~ In x mid /\ ~ In y mid.
Proof.
  intros Hnd Hab Ha Hb.
  apply in_split in Ha as [l1 [l2 ->]].
  pose proof (NoDup_remove_2 _ _ _ Hnd) as Ha.
  apply in_app_or in Hb as [Hb|[Hb|Hb]]; [| congruence |].
  - apply in_split in Hb as [l0 [m ->]].
    rewrite <- app_assoc in Hnd. cbn [app] in Hnd.
    pose proof (NoDup_remove_2 _ _ _ Hnd) as Hb'.
    exists l0, m, l2, b, a. rewrite <- app_assoc. cbn [app].
    split; [reflexivity|]. split; [now right|].
    repeat split; intros H; try (apply Hb'; apply in_or_app; auto;
      right; apply in_or_app; now left);
      apply Ha; apply in_or_app; left; apply in_or_app;
      [now left | right; now right].
  - apply in_split in Hb as [m [l3 ->]].
    exists l1, m, l3, a, b. split; [reflexivity|]. split; [now left|].
    assert (Hnd' : NoDup ((l1 ++ a :: m) ++ b :: l3))
      by (rewrite <- app_assoc; exact Hnd).
    pose proof (NoDup_remove_2 _ _ _ Hnd') as Hb'.
    repeat split; intros H.
    + apply Ha. apply in_or_app. now left.
    + apply Hb'. apply in_or_app. left. apply in_or_app. now left.
    + apply Ha. apply in_or_app. right. apply in_or_app. now left.
    + apply Hb'. apply in_or_app. left. apply in_or_app. right. now right.
Qed.

Lemma loop_sym (from to : NodeId) (it : list NodeId) :
  forall started finished range,
    selectionRange_loop from to it started finished range
    = selectionRange_loop to from it started finished range.
Proof.
  induction it as [|x it IH]; intros started finished range; [reflexivity|].
  cbn [selectionRange_loop].
  rewrite (orb_comm (String.eqb x from) (String.eqb x to)).
  destruct finished; [reflexivity | apply IH].
Qed.

Lemma indexOf_inj (l : list NodeId) (x y : NodeId) :
  (0 <= indexOf String.eqb l x)%Z ->
  indexOf String.eqb l x = indexOf String.eqb l y ->
  x = y.
Proof.
  induction l as [|h t IH]; cbn [indexOf]; [lia|].
  pose proof (indexOf_lower t x). pose proof (indexOf_lower t y).
  destruct (String.eqb_spec h x) as [Ex|Hx];
    destruct (String.eqb_spec h y) as [Ey|Hy].
  - congruence.
  - destruct (indexOf String.eqb t y =? -1)%Z eqn:Ey'; [lia|].
    apply Z.eqb_neq in Ey'. lia.
  - destruct (indexOf String.eqb t x =? -1)%Z eqn:Ex'; [lia|].
    apply Z.eqb_neq in Ex'. lia.
  - destruct (indexOf String.eqb t x =? -1)%Z eqn:Ex'; [lia|].
    apply Z.eqb_neq in Ex'.
    destruct (indexOf String.eqb t y =? -1)%Z eqn:Ey'; [lia|].
    intros _ E. apply IH; lia.
Qed.

(** The range from [a] to [b] is the reverse of the range from [b] to
    [a], whatever the nodes. *)
Lemma selectionRange_reverse (tr : Tree) (a b : NodeId) :
  TreeModelImpl.selectionRange tr b (Some a)
  = rev (TreeModelImpl.selectionRange tr a (Some b)).
Proof.
  unfold TreeModelImpl.selectionRange, TreeModelImpl.eqbOpt.
  rewrite (String.eqb_sym b a).
  destruct (String.eqb_spec a b) as [|Hab]; [reflexivity|].
  destruct (root tr) as [r|]; [|reflexivity].
  destruct (validateNode tr (Some b)) as [to|] eqn:Hb;
    destruct (validateNode tr (Some a)) as [from|] eqn:Ha; try reflexivity.
  assert (from = a) as ->.
  { unfold validateNode in Ha. destruct (getNode tr a); congruence. }
  assert (to = b) as ->.
  { unfold validateNode in Hb. destruct (getNode tr b); congruence. }
  rewrite (loop_sym b a). unfold orientRange.
  set (raw := selectionRange_loop a b (prunedOrder r) false false []).
  destruct (Z.compare_spec (indexOf String.eqb raw a) (indexOf String.eqb raw b))
    as [E|Hlt|Hgt].
  - assert (Hraw : raw = []).
    { destruct (Z_lt_le_dec (indexOf String.eqb raw a) 0) as [Hneg|Hpos].
      - pose proof (indexOf_lower raw a).
        assert (Ha' : ~ In a raw) by (apply indexOf_absent; lia).
        assert (Hb' : ~ In b raw) by (apply indexOf_absent; lia).
        destruct (loop_shape a b (prunedOrder r))
          as [E0|(x & mid & Hx & _ & Hshape)]; [exact E0|].
        fold raw in Hshape. exfalso.
        assert (Hin : In x raw).
        { destruct Hshape as [->|(y & _ & ->)]; now left. }
        destruct Hx as [->| ->]; contradiction.
      - exfalso. apply Hab. now apply (@indexOf_inj raw a b). }
    rewrite Hraw. simpl. reflexivity.
  - replace (indexOf String.eqb raw a >? indexOf String.eqb raw b)%Z
      with false by (symmetry; rewrite Z.gtb_ltb; apply Z.ltb_ge; lia).
    replace (indexOf String.eqb raw b >? indexOf String.eqb raw a)%Z
      with true by (symmetry; rewrite Z.gtb_ltb; apply Z.ltb_lt; lia).
    now rewrite filter_rev, rev_involutive.
  - replace (indexOf String.eqb raw a >? indexOf String.eqb raw b)%Z
      with true by (symmetry; rewrite Z.gtb_ltb; apply Z.ltb_lt; lia).
    replace (indexOf String.eqb raw b >? indexOf String.eqb raw a)%Z
      with false by (symmetry; rewrite Z.gtb_ltb; apply Z.ltb_ge; lia).
    apply filter_rev.
Qed.

(** C7, as the code has it: for two distinct valid selectable nodes,
    [selectionRange(b, a)] is the reverse of [selectionRange(a, b)]; when
    the collapse-pruned pre-order yields both, the two lists hold both
    nodes and are the selectable nodes between them in that order, from
    [a] to [b] and from [b] to [a]. *)
Theorem selectionRange_reverse_between (tr : Tree) (a b : NodeId) :
  a <> b ->
  validateNode tr (Some a) = Some a ->
  validateNode tr (Some b) = Some b ->
  SelectableTreeNode_is tr a = true ->
  SelectableTreeNode_is tr b = true ->
  TreeModelImpl.selectionRange tr b (Some a)
    = rev (TreeModelImpl.selectionRange tr a (Some b))
  /\ forall r,
       root tr = Some r ->
       NoDup (prunedOrder r) ->
       In a (prunedOrder r) ->
       In b (prunedOrder r) ->
       TreeModelImpl.selectionRange tr b (Some a)
         = filter (SelectableTreeNode_is tr) (between (prunedOrder r) a b)
       /\ TreeModelImpl.selectionRange tr a (Some b)
         = filter (SelectableTreeNode_is tr) (between (prunedOrder r) b a)
       /\ In a (TreeModelImpl.selectionRange tr b (Some a))
       /\ In b (TreeModelImpl.selectionRange tr b (Some a)).
Proof.
  intros Hab Hva Hvb Hsa Hsb. split; [apply selectionRange_reverse|].
  intros r Hroot Hnd Ha Hb.
  destruct (two_nodes_of_order Hnd Hab Ha Hb)
    as (pre & mid & post & x & y & Horder & Hends & Hxp & Hyp & Hxm & Hym).
  assert (Hxy : x <> y) by (destruct Hends as [[-> ->]|[-> ->]]; congruence).
  assert (Hin : forall l, In a (x :: l ++ [y]) /\ In b (x :: l ++ [y])).
  { intros l. destruct Hends as [[-> ->]|[-> ->]]; split;
      try (now left); right; apply in_or_app; right; now left. }
  destruct Hends as [[-> ->]|[-> ->]].
  - destruct (selectionRange_ordered tr pre mid post Hroot Horder Hxy
                Hxp Hyp Hxm Hym Hva Hvb) as (Hba & Hab' & Hbw & Hbw').
    rewrite Hba, Hab', Hbw, Hbw'.
    repeat split; try reflexivity; apply filter_In; split;
      try assumption; apply (Hin mid).
  - destruct (selectionRange_ordered tr pre mid post Hroot Horder Hxy
                Hxp Hyp Hxm Hym Hvb Hva) as (Hab' & Hba & Hbw & Hbw').
    rewrite Hba, Hab', Hbw, Hbw'.
    repeat split; try reflexivity; apply filter_In; split;
      try assumption; apply in_rev; rewrite rev_involutive; apply (Hin mid).
Qed.

Lemma selectionRange_reverse_between_witness :
  TreeModelImpl.selectionRange (mockTreeCollapsed ["1.2.1"]) "1.1.2" (Some "1.3")
    = ["1.3"; "1.2.3"; "1.2.2"; "1.2.1"; "1.2"; "1.1.2"]
  /\ TreeModelImpl.selectionRange (mockTreeCollapsed ["1.2.1"]) "1.1.2"
       (Some "1.3")
     = rev (TreeModelImpl.selectionRange (mockTreeCollapsed ["1.2.1"]) "1.3"
              (Some "1.1.2")).
Proof.
  destruct (@selectionRange_reverse_between (mockTreeCollapsed ["1.2.1"])
              "1.3" "1.1.2")
    as (Hrev & Hbetween).
  - discriminate.
  - reflexivity.
  - reflexivity.
  - reflexivity.
  - reflexivity.
  - destruct (Hbetween (collapseNodes ["1.2.1"] MOCK_ROOT))
      as (Hbetween' & _).
    + reflexivity.
    + vm_compute. repeat constructor; simpl; intuition discriminate.
    + vm_compute. intuition.
    + vm_compute. intuition.
    + split; [etransitivity; [exact Hbetween' | reflexivity] | exact Hrev].
Defined.

(** C7 as stated fails for a valid selectable node hidden below a
    collapsed one: with 1.2.1 collapsed, the range between 1.2.1.1 and
    1.1 runs from 1.1 to the end of the tree and does not hold 1.2.1.1. *)
Lemma selectionRange_hidden_end :
  "1.2.1.1" <> "1.1"
  /\ validateNode (mockTreeCollapsed ["1.2.1"]) (Some "1.2.1.1") = Some "1.2.1.1"
  /\ validateNode (mockTreeCollapsed ["1.2.1"]) (Some "1.1") = Some "1.1"
  /\ SelectableTreeNode_is (mockTreeCollapsed ["1.2.1"]) "1.2.1.1" = true
  /\ SelectableTreeNode_is (mockTreeCollapsed ["1.2.1"]) "1.1" = true
  /\ TreeModelImpl.selectionRange (mockTreeCollapsed ["1.2.1"]) "1.1"
       (Some "1.2.1.1")
     = ["1.1"; "1.1.1"; "1.1.2"; "1.2"; "1.2.1"; "1.2.2"; "1.2.3"; "1.3"]
  /\ ~ In "1.2.1.1"
       (TreeModelImpl.selectionRange (mockTreeCollapsed ["1.2.1"]) "1.1"
          (Some "1.2.1.1")).
Proof.
  repeat split; try reflexivity; try discriminate.
  vm_compute. intuition discriminate.
Qed.

(** ** Selecting a range on top of a selection *)

Lemma selectable_is_valid (tr : Tree) (n : NodeId) :
  SelectableTreeNode_is tr n = true -> validateNode tr (Some n) = Some n.
Proof.
  unfold SelectableTreeNode_is, validateNode.
  destruct (getNode tr n); [reflexivity | discriminate].
Qed.

Lemma orientRange_selectable (tr : Tree) (from to : NodeId)
    (range : list NodeId) (n : NodeId) :
  In n (orientRange tr from to range) -> SelectableTreeNode_is tr n = true.
Proof. unfold orientRange. intros H. now apply filter_In in H. Qed.

Lemma model_range_selectable (tr : Tree) (toNode : NodeId)
    (fromNode : option NodeId) (n : NodeId) :
  In n (TreeModelImpl.selectionRange tr toNode fromNode) ->
  SelectableTreeNode_is tr n = true.
Proof.
  unfold TreeModelImpl.selectionRange.
  destruct (TreeModelImpl.eqbOpt toNode fromNode); [intros []|].
  destruct (root tr); [|intros []].
  destruct (validateNode tr (Some toNode)); [|intros []].
  destruct (validateNode tr fromNode); [|intros []].
  apply orientRange_selectable.
Qed.

(** The loop of [selectRange] leaves a copy alone that shares no node
    with the range. *)
Lemma selectRange_loop_disjoint (fuel : nat) (range copy : list NodeId)
    (i : nat) :
  (forall n, In n copy -> ~ In n range) ->
  TreeModelImpl.selectRange_loop fuel range i copy = copy.
Proof.
  intros Hdisjoint. revert i.
  induction fuel as [|fuel IH]; intros i; simpl; [reflexivity|].
  destruct (nth_error copy i) as [node|] eqn:E; [|reflexivity].
  apply nth_error_In in E. apply Hdisjoint, indexOf_absent in E.
  rewrite E. simpl. apply IH.
Qed.

(** C4, as the code has it: with a non-empty range, [selectRange] with
    [preserveSelection] puts the range in front of the selection in the
    reverse of the order of [selectionRange], that is [to] first and
    [from] last; when no node of the prior selection lies in the range,
    the prior selection follows unchanged. *)
Theorem selectRange_preserve (tr : Tree) (svc : TreeSelectionServiceImpl.t)
    (toNode : NodeId) (fromNode : option NodeId) :
  let range :=
    TreeModelImpl.selectionRange tr toNode
      (match fromNode with
       | Some f => Some f
       | None => hd_error (TreeSelectionServiceImpl.selectedNodes svc)
       end) in
  range <> [] ->
  (exists rest,
     TreeSelectionServiceImpl.selectedNodes
       (TreeModelImpl.selectRange tr svc toNode fromNode true)
     = rev range ++ rest)
  /\ ((forall n, In n (TreeSelectionServiceImpl.selectedNodes svc) ->
         validateNode tr (Some n) = Some n
         /\ SelectableTreeNode_is tr n = true) ->
      (forall n, In n (TreeSelectionServiceImpl.selectedNodes svc) ->
         ~ In n range) ->
      TreeSelectionServiceImpl.selectedNodes
        (TreeModelImpl.selectRange tr svc toNode fromNode true)
      = rev range ++ TreeSelectionServiceImpl.selectedNodes svc).
Proof.
  intros range Hrange.
  assert (Hsel : forall n, In n (rev range) ->
            validateNode tr (Some n) = Some n
            /\ SelectableTreeNode_is tr n = true).
  { intros n Hn. apply in_rev in Hn. apply model_range_selectable in Hn.
    split; [now apply selectable_is_valid | assumption]. }
  assert (Hlen : Nat.eqb (List.length (rev range)) 0 = false).
  { apply Nat.eqb_neq. rewrite length_rev.
    destruct range; [congruence | discriminate]. }
  unfold TreeModelImpl.selectRange. fold range. rewrite Hlen. split.
  - unfold TreeSelectionServiceImpl.setSelection,
      TreeSelectionServiceImpl.doSelectNodes,
      TreeSelectionServiceImpl.selectedNodes.
    cbn [TreeSelectionServiceImpl._selectedNodes].
    rewrite !filter_app. eexists. f_equal.
    rewrite (@filter_all _ _ (rev range)).
    + apply filter_all. intros n Hn. now apply Hsel.
    + intros n Hn. destruct (Hsel n Hn) as [Hv _]. cbv beta. now rewrite Hv.
  - intros Hvalid Hdisjoint.
    rewrite selectRange_loop_disjoint.
    + apply setSelection_valid. intros n Hn.
      apply in_app_or in Hn as [Hn|Hn]; [now apply Hsel | now apply Hvalid].
    + intros n Hn Hin. apply in_rev in Hin. now apply (Hdisjoint n).
Qed.

Lemma selectRange_preserve_witness :
  TreeModelImpl.selectionRange mockTree "1.2.3" (Some "1.2.1") <> []
  /\ TreeSelectionServiceImpl.selectedNodes
       (TreeModelImpl.selectRange mockTree
          (TreeSelectionServiceImpl.mk ["1"; "1.1.2"] (fun _ => false) [])
          "1.2.3" (Some "1.2.1") true)
     = rev (TreeModelImpl.selectionRange mockTree "1.2.3" (Some "1.2.1"))
       ++ ["1"; "1.1.2"].
Proof.
  assert (H : TreeModelImpl.selectionRange mockTree "1.2.3" (Some "1.2.1")
              <> []) by (vm_compute; discriminate).
  split; [exact H|].
  apply (proj2 (@selectRange_preserve mockTree
                  (TreeSelectionServiceImpl.mk ["1"; "1.1.2"]
                     (fun _ => false) [])
                  "1.2.3" (Some "1.2.1") H)).
  - intros n [<-|[<-|[]]]; split; reflexivity.
  - intros n [<-|[<-|[]]]; vm_compute; intuition discriminate.
Defined.

(** C4 as stated fails: on the mock tree with nothing selected,
    [selectRange(1.3, 1.2.1.2, true)] selects the range with [to] first
    and [from] last, not with [from] first and [to] last. *)
Lemma selectRange_puts_to_first :
  TreeModelImpl.selectionRange mockTree "1.3" (Some "1.2.1.2") <> []
  /\ TreeSelectionServiceImpl.selectedNodes
       (TreeModelImpl.selectRange mockTree noSelection "1.3"
          (Some "1.2.1.2") true)
     = ["1.3"; "1.2.3"; "1.2.2"; "1.2.1.2"]
  /\ selectRange_claimed mockTree [] "1.3" "1.2.1.2"
     = ["1.2.1.2"; "1.2.2"; "1.2.3"; "1.3"]
  /\ TreeSelectionServiceImpl.selectedNodes
       (TreeModelImpl.selectRange mockTree noSelection "1.3"
          (Some "1.2.1.2") true)
     <> selectRange_claimed mockTree [] "1.3" "1.2.1.2".
Proof.
  repeat split; try (vm_compute; reflexivity); vm_compute; discriminate.
Qed.

(** The second step of the model test on consecutive ranges: a prior
    node that lies in the range is looked up in the range and the index
    found there is spliced out of the copy of the prior selection, so
    1.2.3 and 1.2.1.1 are dropped while 1.2.1.2 and 1.2.1 stay twice. *)
Lemma selectRange_overlapping_prior :
  TreeSelectionServiceImpl.selectedNodes
    (TreeModelImpl.selectRange mockTree
       (TreeSelectionServiceImpl.mk
          ["1.2.3"; "1.2.2"; "1.2.1.2"; "1.2.1.1"; "1.2.1"; "1"; "1.1.2"]
          (fun _ => false) [])
       "1.2.1.2" (Some "1.2.1") true)
  = ["1.2.1.2"; "1.2.1.1"; "1.2.1"; "1.2.2"; "1.2.1.2"; "1.2.1"; "1"; "1.1.2"].
Proof. vm_compute. reflexivity. Qed.

(** [selectRange] gives its loop enough fuel: one more changes nothing. *)
Lemma splice_one_length (A : Type) (l : list A) (p : nat) :
  List.length (splice l p 1 []) <= List.length l.
Proof.
  unfold splice. rewrite length_app, length_firstn. cbn [app].
  rewrite length_skipn. lia.
Qed.

Lemma selectRange_loop_fuel (fuel : nat) (range copy : list NodeId) (i : nat) :
  List.length copy <= i + fuel ->
  TreeModelImpl.selectRange_loop (S fuel) range i copy
  = TreeModelImpl.selectRange_loop fuel range i copy.
Proof.
  revert i copy. induction fuel as [|fuel IH]; intros i copy Hlen.
  - cbn [TreeModelImpl.selectRange_loop].
    destruct (nth_error copy i) eqn:E; [|reflexivity].
    assert (nth_error copy i <> None) by congruence.
    apply nth_error_Some in H. lia.
  - change (TreeModelImpl.selectRange_loop (S (S fuel)) range i copy)
      with (match nth_error copy i with
            | None => copy
            | Some node =>
                let index := indexOf String.eqb range node in
                if negb (index =? -1)%Z
                then TreeModelImpl.selectRange_loop (S fuel) range (S i)
                       (splice copy (Z.to_nat index) 1 [])
                else TreeModelImpl.selectRange_loop (S fuel) range (S i) copy
            end).
    cbn [TreeModelImpl.selectRange_loop].
    destruct (nth_error copy i) as [node|]; [|reflexivity].
    cbv zeta. destruct (negb _).
    + apply IH.
      pose proof (splice_one_length copy
                    (Z.to_nat (indexOf String.eqb range node))). lia.
    + apply IH. lia.
Qed.

(** ** Splicing *)

Lemma splice_at (A : Type) (l1 l2 items : list A) (a : A) :
  splice (l1 ++ a :: l2) (List.length l1) 1 items = l1 ++ items ++ l2.
Proof.
  unfold splice. rewrite firstn_app, firstn_all, Nat.sub_diag.
  cbn [firstn]. rewrite app_nil_r. do 2 f_equal.
  rewrite skipn_app, skipn_all2 by lia.
  replace (List.length l1 + 1 - List.length l1) with 1 by lia. reflexivity.
Qed.

Lemma splice_nth (A : Type) (l items : list A) (i : nat) (a : A) :
  nth_error l i = Some a ->
  exists l1 l2, l = l1 ++ a :: l2 /\ List.length l1 = i
                /\ splice l i 1 items = l1 ++ items ++ l2.
Proof.
  intros H. apply nth_error_split in H as (l1 & l2 & -> & <-).
  exists l1, l2. repeat split. apply splice_at.
Qed.

Lemma splice_beyond (A : Type) (l : list A) (p : nat) :
  List.length l <= p -> splice l p 1 [] = l.
Proof.
  intros H. unfold splice. rewrite firstn_all2, skipn_all2 by lia.
  apply app_nil_r.
Qed.

(** Splicing indices of a window [tops] of the array, from the highest
    down, leaves what is below and above the window in place. *)
Lemma spliceEach_window (A : Type) (indices : list nat) :
  forall (base tops rest : list A),
    descending indices ->
    Forall (fun i => List.length base <= i
                     /\ i < List.length base + List.length tops) indices ->
    exists tops',
      spliceEach indices (base ++ tops ++ rest) = base ++ tops' ++ rest
      /\ incl tops' tops.
Proof.
  induction indices as [|p indices IH]; intros base tops rest Hdesc Hwin.
  - exists tops. split; [reflexivity | apply incl_refl].
  - destruct Hdesc as [Hbelow Hdesc].
    inversion Hwin as [|? ? [Hlo Hhi] Hwin']; subst.
    assert (Hp : nth_error tops (p - List.length base) <> None)
      by (apply nth_error_Some; lia).
    destruct (nth_error tops (p - List.length base)) as [a|] eqn:E;
      [clear Hp | congruence].
    apply nth_error_split in E as (t1 & t2 & -> & Hlen).
    assert (Hsplice : splice (base ++ (t1 ++ a :: t2) ++ rest) p 1 []
                      = base ++ (t1 ++ t2) ++ rest).
    { replace (base ++ (t1 ++ a :: t2) ++ rest)
        with ((base ++ t1) ++ a :: (t2 ++ rest))
        by (now rewrite <- !app_assoc).
      replace p with (List.length (base ++ t1)) by (rewrite length_app; lia).
      rewrite splice_at. now rewrite <- !app_assoc. }
    destruct (IH base (t1 ++ t2) rest Hdesc) as (tops' & Heq & Hincl).
    + rewrite Forall_forall in *. intros i Hi.
      destruct (Hwin' i Hi) as [Hlo' _]. specialize (Hbelow i Hi).
      rewrite length_app in *. cbn [List.length] in Hhi. lia.
    + exists tops'. split.
      * unfold spliceEach in *. cbn [fold_left]. now rewrite Hsplice.
      * intros x Hx. apply Hincl in Hx. apply in_or_app.
        apply in_app_or in Hx as [Hx|Hx]; [now left | right; now right].
Qed.

(** ** The stack invariant *)

Lemma anchored_app (b : bool) (l1 l2 : list TreeSelection.t) :
  anchored b (l1 ++ l2) = anchored b l1 && anchored (topIsToggle b l1) l2.
Proof.
  revert b. induction l1 as [|g l1 IH]; intros b; simpl; [reflexivity|].
  rewrite IH. apply andb_assoc.
Qed.

Lemma topIsToggle_app (b : bool) (l1 l2 : list TreeSelection.t) :
  topIsToggle b (l1 ++ l2) = topIsToggle (topIsToggle b l1) l2.
Proof. revert b. induction l1 as [|g l1 IH]; intros b; simpl; auto. Qed.

Lemma anchored_weaken (b : bool) (l : list TreeSelection.t) :
  anchored false l = true -> anchored b l = true.
Proof.
  destruct l as [|g l]; simpl; [reflexivity|].
  destruct (isRANGE (type g)); [discriminate | auto].
Qed.

Lemma toggle_not_range (ty : option SelectionType) :
  isTOGGLE ty = true -> isRANGE ty = false.
Proof. destruct ty as [[| |]|]; simpl; congruence. Qed.

Lemma anchored_toggles (b : bool) (l : list TreeSelection.t) :
  Forall (fun g => isTOGGLE (type g) = true) l -> anchored b l = true.
Proof.
  revert b. induction l as [|g l IH]; intros b H; simpl; [reflexivity|].
  inversion H as [|? ? Hg Hl]; subst.
  rewrite (toggle_not_range _ Hg). simpl. now apply IH.
Qed.

Lemma topIsToggle_toggles (b : bool) (l : list TreeSelection.t) :
  Forall (fun g => isTOGGLE (type g) = true) l ->
  l <> [] \/ b = true ->
  topIsToggle b l = true.
Proof.
  revert b. induction l as [|g l IH]; intros b H Hne; simpl.
  - destruct Hne; congruence.
  - inversion H as [|? ? Hg Hl]; subst. apply IH; auto.
Qed.

Lemma typed_app (l1 l2 : list TreeSelection.t) :
  typed (l1 ++ l2) = typed l1 && typed l2.
Proof. apply forallb_app. Qed.

Lemma typed_incl (l l' : list TreeSelection.t) :
  incl l' l -> typed l = true -> typed l' = true.
Proof.
  unfold typed. intros Hincl H. rewrite forallb_forall in *.
  intros x Hx. apply H, Hincl, Hx.
Qed.

Lemma typed_toggles (l : list TreeSelection.t) :
  Forall (fun g => isTOGGLE (type g) = true) l -> typed l = true.
Proof.
  intros H. unfold typed. apply forallb_forall. intros x Hx.
  rewrite Forall_forall in H. now rewrite (H x Hx).
Qed.

Lemma typed_not_range (l : list TreeSelection.t) (g : TreeSelection.t) :
  typed l = true -> In g l -> isRANGE (type g) = false ->
  isTOGGLE (type g) = true.
Proof.
  unfold typed. intros H Hin Hr. rewrite forallb_forall in H.
  specialize (H g Hin). now rewrite Hr, orb_false_r in H.
Qed.

Lemma check_typed (l : list TreeSelection.t) :
  typed l = true -> TreeSelectionState.checkNoDefaultSelection l = Ok l.
Proof.
  intros H. unfold TreeSelectionState.checkNoDefaultSelection.
  destruct (existsb _ l) eqn:E; [|reflexivity].
  apply existsb_exists in E as (g & Hin & Hg).
  unfold typed in H. rewrite forallb_forall in H. specialize (H g Hin).
  destruct (type g) as [[| |]|]; simpl in *; discriminate.
Qed.

Lemma check_ok (l l' : list TreeSelection.t) :
  TreeSelectionState.checkNoDefaultSelection l = Ok l' ->
  l' = l /\ typed l = true.
Proof.
  unfold TreeSelectionState.checkNoDefaultSelection.
  destruct (existsb _ l) eqn:E; [discriminate|].
  intros H. inversion H; subst. split; [reflexivity|].
  unfold typed. apply forallb_forall. intros g Hin.
  destruct (isTOGGLE (type g) || isRANGE (type g)) eqn:Hg; [reflexivity|].
  assert (Hex : existsb (fun selection =>
                  match type selection with
                  | None => true
                  | Some ty => isDEFAULT (Some ty)
                  end) l' = true).
  { apply existsb_exists. exists g. split; [assumption|].
    destruct (type g) as [[| |]|]; simpl in *; congruence. }
  congruence.
Qed.

Lemma spliceEach_tops (A : Type) (indices : list nat) (copy rest : list A)
    (k : nat) :
  k <= List.length copy ->
  descending indices ->
  Forall (fun i => k <= i /\ i < List.length copy) indices ->
  exists tops',
    spliceEach indices (copy ++ rest) = firstn k copy ++ tops' ++ rest
    /\ incl tops' (skipn k copy).
Proof.
  intros Hk Hdesc Hwin.
  replace (copy ++ rest) with (firstn k copy ++ skipn k copy ++ rest)
    by (now rewrite app_assoc, firstn_skipn).
  apply spliceEach_window; [assumption|].
  rewrite Forall_forall in *. intros i Hi. specialize (Hwin i Hi).
  rewrite length_firstn, length_skipn. lia.
Qed.

(** ** The loops that scan the stack from its top *)

Lemma merge_scan (selectedNode : NodeId) (copy : list TreeSelection.t)
    (n : nat) :
  n <= List.length copy ->
  exists k,
    k <= n
    /\ descending (TreeSelectionState.handleToggle_merge selectedNode copy n)
    /\ Forall (fun i => k <= i /\ i < n)
         (TreeSelectionState.handleToggle_merge selectedNode copy n)
    /\ (forall j g, k <= j -> j < n -> nth_error copy j = Some g ->
                    isRANGE (type g) = false).
Proof.
  induction n as [|i IH]; intros Hn.
  - exists 0. simpl. repeat split; auto. intros; lia.
  - destruct (IH (Nat.le_trans _ _ _ (Nat.le_succ_diag_r i) Hn))
      as (k & Hk & Hdesc & Hwin & Htops).
    cbn [TreeSelectionState.handleToggle_merge].
    destruct (nth_error copy i) as [sel|] eqn:E.
    2:{ apply nth_error_None in E. lia. }
    destruct (isRANGE (type sel)) eqn:Hr.
    + exists (S i). simpl. repeat split; auto. intros; lia.
    + assert (Htops' : forall j g, k <= j -> j < S i ->
                nth_error copy j = Some g -> isRANGE (type g) = false).
      { intros j g Hj Hlt Hg. destruct (Nat.eq_dec j i) as [->|Hne].
        - congruence.
        - apply (Htops j g); auto; lia. }
      assert (Hwin' : Forall (fun i0 => k <= i0 /\ i0 < S i)
                (TreeSelectionState.handleToggle_merge selectedNode copy i)).
      { rewrite Forall_forall in *. intros j Hj. specialize (Hwin j Hj). lia. }
      exists k. destruct (String.eqb (node sel) selectedNode).
      * split; [lia|]. split; [|split; [|exact Htops']].
        -- split; [|exact Hdesc].
           rewrite Forall_forall in *. intros j Hj. apply (Hwin j Hj).
        -- constructor; [lia | assumption].
      * split; [lia|]. split; [exact Hdesc|]. split; assumption.
Qed.

Lemma in_total (tr : Tree) (range : TreeSelection.t) (from : option NodeId)
    (toTest : NodeId) :
  isRANGE (type range) = true ->
  exists b, TreeSelectionState.in_ tr range from toTest = Ok b.
Proof.
  intros Hr. unfold TreeSelectionState.in_. rewrite Hr. cbn [negb].
  destruct from as [from|]; [|now exists false].
  destruct (root tr) as [r|]; [|now exists false].
  destruct (_ || _); [now exists true|].
  destruct (TreeSelectionState.in_loop _ _ _ _ _ _) as [b|];
    [now exists b | now exists false].
Qed.

Lemma range_scan (tr : Tree) (range : TreeSelection.t)
    (lastSelection : option NodeId) (copy : list TreeSelection.t) (n : nat) :
  isRANGE (type range) = true ->
  n <= List.length copy ->
  (forall g, nth_error copy (List.length copy - 1) = Some g ->
             isRANGE (type g) = false) ->
  exists rm k,
    TreeSelectionState.handleRange_loop tr range lastSelection copy n
      = Ok (rm, copy)
    /\ k <= n
    /\ descending rm
    /\ Forall (fun i => k <= i /\ i < n) rm
    /\ (forall j g, k <= j -> j < n -> nth_error copy j = Some g ->
                    isRANGE (type g) = false).
Proof.
  intros Hrange. induction n as [|i IH]; intros Hn Htop.
  - exists [], 0. simpl. repeat split; auto. intros; lia.
  - destruct (IH (Nat.le_trans _ _ _ (Nat.le_succ_diag_r i) Hn) Htop)
      as (rm & k & Hloop & Hk & Hdesc & Hwin & Htops).
    cbn [TreeSelectionState.handleRange_loop].
    destruct (nth_error copy i) as [sel|] eqn:E.
    2:{ apply nth_error_None in E. lia. }
    destruct (isRANGE (type sel)) eqn:Hr.
    + destruct (Nat.eqb_spec i (List.length copy - 1)) as [->|_].
      * rewrite (Htop sel E) in Hr. discriminate.
      * exists [], (S i). simpl. repeat split; auto. intros; lia.
    + destruct (@in_total tr range lastSelection (node sel) Hrange) as [b ->].
      rewrite Hloop. cbn [bind fst snd].
      assert (Htops' : forall j g, k <= j -> j < S i ->
                nth_error copy j = Some g -> isRANGE (type g) = false).
      { intros j g Hj Hlt Hg. destruct (Nat.eq_dec j i) as [->|Hne].
        - congruence.
        - apply (Htops j g); auto; lia. }
      assert (Hwin' : Forall (fun i0 => k <= i0 /\ i0 < S i) rm).
      { rewrite Forall_forall in *. intros j Hj. specialize (Hwin j Hj). lia. }
      exists (if b then i :: rm else rm), k. destruct b.
      * split; [reflexivity|]. split; [lia|].
        split; [|split; [|exact Htops']].
        -- split; [|exact Hdesc].
           rewrite Forall_forall in *. intros j Hj. apply (Hwin j Hj).
        -- constructor; [lia | assumption].
      * split; [reflexivity|]. split; [lia|].
        split; [exact Hdesc|]. split; assumption.
Qed.

(** A split replaces one [RANGE] of the stack by [TOGGLE]s. *)
Lemma split_shape (tr : Tree) (selectedNode : NodeId)
    (copy copy' : list TreeSelection.t) (n : nat) :
  TreeSelectionState.handleToggle_split tr selectedNode copy n = Some copy' ->
  exists i g items,
    nth_error copy i = Some g
    /\ isRANGE (type g) = true
    /\ Forall (fun t => isTOGGLE (type t) = true) items
    /\ copy' = splice copy i 1 items.
Proof.
  induction n as [|i IH]; [discriminate|].
  cbn [TreeSelectionState.handleToggle_split].
  destruct (nth_error copy i) as [sel|] eqn:E; [|discriminate].
  destruct (isRANGE (type sel)) eqn:Hr; [|exact IH].
  destruct (negb _); [|exact IH].
  intros H. inversion H; subst. eexists i, sel, _.
  repeat split; try eassumption.
  unfold shift. apply Forall_forall. intros t Ht.
  match type of Ht with In _ (tl ?l) => assert (Ht' : In t l) end.
  { match type of Ht with In _ (tl ?l) => destruct l end;
      [destruct Ht | now right]. }
  apply in_map_iff in Ht' as (x & <- & _). reflexivity.
Qed.

Lemma tops_are_toggles (copy : list TreeSelection.t) (k n : nat) :
  typed copy = true ->
  List.length copy <= n ->
  (forall j g, k <= j -> j < n -> nth_error copy j = Some g ->
               isRANGE (type g) = false) ->
  Forall (fun g => isTOGGLE (type g) = true) (skipn k copy).
Proof.
  intros Htyped Hn Htops. apply Forall_forall. intros g Hg.
  apply In_nth_error in Hg as [j Hj]. rewrite nth_error_skipn in Hj.
  assert (Hlt : k + j < List.length copy).
  { apply nth_error_Some. congruence. }
  apply (@typed_not_range copy g); [assumption | |].
  - eapply nth_error_In; eassumption.
  - apply (Htops (k + j) g); auto; lia.
Qed.

Lemma Forall_incl (A : Type) (P : A -> Prop) (l l' : list A) :
  incl l' l -> Forall P l -> Forall P l'.
Proof.
  intros Hincl H. rewrite Forall_forall in *. intros x Hx.
  apply H, Hincl, Hx.
Qed.

(** ** The transitions keep the stack invariant *)

Lemma handleToggle_invariant (tr : Tree) (state : TreeSelectionState.t)
    (selectedNode : NodeId) :
  typed (TreeSelectionState.selectionStack state) = true ->
  anchored true (TreeSelectionState.selectionStack state) = true ->
  exists state',
    TreeSelectionState.handleToggle tr state selectedNode = Ok state'
    /\ typed (TreeSelectionState.selectionStack state') = true
    /\ anchored true (TreeSelectionState.selectionStack state') = true.
Proof.
  destruct state as [copy]. cbn [TreeSelectionState.selectionStack].
  intros Htyped Hanch. unfold TreeSelectionState.handleToggle.
  cbn [TreeSelectionState.selectionStack]. rewrite (@check_typed _ Htyped).
  cbn [bind].
  destruct (TreeSelectionState.handleToggle_split tr selectedNode copy
              (List.length copy)) as [copy'|] eqn:Hsplit.
  - exists (TreeSelectionState.mk copy'). split; [reflexivity|].
    cbn [TreeSelectionState.selectionStack].
    apply split_shape in Hsplit as (i & g & items & Hnth & Hr & Hitems & ->).
    destruct (@splice_nth _ copy items i g Hnth) as (l1 & l2 & -> & _ & ->).
    rewrite !typed_app in *. rewrite !anchored_app in *.
    cbn [typed forallb anchored] in *.
    apply andb_true_iff in Htyped as [Ht1 Ht2].
    apply andb_true_iff in Ht2 as [_ Ht2].
    apply andb_true_iff in Hanch as [Ha1 Ha2].
    apply andb_true_iff in Ha2 as [_ Ha2].
    assert (Hg : isTOGGLE (type g) = false)
      by (destruct (type g) as [[| |]|]; simpl in *; congruence).
    rewrite Hg in Ha2. split.
    + rewrite Ht1, (@typed_toggles _ Hitems). exact Ht2.
    + rewrite Ha1, (@anchored_toggles _ _ Hitems). cbn [andb].
      now apply anchored_weaken.
  - destruct (@merge_scan selectedNode copy (List.length copy) (le_n _))
      as (k & Hk & Hdesc & Hwin & Htops).
    destruct (@spliceEach_tops _ _ copy [] k Hk Hdesc Hwin)
      as (tops' & Heq & Hincl).
    rewrite app_nil_r in Heq. rewrite Heq, app_nil_r.
    pose proof (@tops_are_toggles copy k (List.length copy) Htyped (le_n _) Htops)
      as Htoggles.
    pose proof (@Forall_incl _ _ _ _ Hincl Htoggles) as Htoggles'.
    rewrite <- (firstn_skipn k copy) in Htyped, Hanch.
    rewrite typed_app in Htyped. rewrite anchored_app in Hanch.
    apply andb_true_iff in Htyped as [Ht1 _].
    apply andb_true_iff in Hanch as [Ha1 _].
    destruct (Nat.ltb 0 _).
    + eexists. split; [reflexivity|]. cbn [TreeSelectionState.selectionStack].
      rewrite typed_app, anchored_app, Ht1, Ha1, (@typed_toggles _ Htoggles'),
        (@anchored_toggles _ _ Htoggles'). split; reflexivity.
    + eexists. split; [reflexivity|]. cbn [TreeSelectionState.selectionStack].
      assert (Hall : Forall (fun g => isTOGGLE (type g) = true)
                (tops' ++ [TreeSelection.mk selectedNode (Some TOGGLE)])).
      { apply Forall_app. split; [assumption|]. now constructor. }
      rewrite <- app_assoc.
      rewrite typed_app, anchored_app, Ht1, Ha1, (@typed_toggles _ Hall),
        (@anchored_toggles _ _ Hall). split; reflexivity.
Qed.

Lemma handleRange_invariant (tr : Tree) (state : TreeSelectionState.t)
    (selectedNode : NodeId) :
  typed (TreeSelectionState.selectionStack state) = true ->
  anchored true (TreeSelectionState.selectionStack state) = true ->
  exists state',
    TreeSelectionState.handleRange tr state selectedNode = Ok state'
    /\ typed (TreeSelectionState.selectionStack state') = true
    /\ anchored true (TreeSelectionState.selectionStack state') = true.
Proof.
  destruct state as [copy]. cbn [TreeSelectionState.selectionStack].
  intros Htyped Hanch. unfold TreeSelectionState.handleRange.
  cbn [TreeSelectionState.selectionStack]. rewrite (@check_typed _ Htyped).
  cbn [bind].
  destruct copy as [|g0 c0] using rev_ind; [|clear IHc0].
  - eexists. split; [reflexivity | split; reflexivity].
  - rename c0 into c. rename g0 into g.
    assert (Hlen : List.length (c ++ [g]) = S (List.length c))
      by (rewrite length_app; simpl; lia).
    assert (Hnth : nth_error (c ++ [g]) (List.length c) = Some g).
    { rewrite nth_error_app2 by lia. now rewrite Nat.sub_diag. }
    rewrite typed_app in Htyped. rewrite anchored_app in Hanch.
    apply andb_true_iff in Htyped as [Ht1 Ht2].
    apply andb_true_iff in Hanch as [Ha1 Ha2].
    rewrite Hlen. destruct (isRANGE (type g)) eqn:Hr.
    + cbn [TreeSelectionState.handleRange_loop]. rewrite Hnth, Hr.
      replace (Nat.eqb (List.length c) (List.length (c ++ [g]) - 1)) with true
        by (symmetry; apply Nat.eqb_eq; lia).
      cbn [bind fst snd shift tl spliceEach fold_left].
      unfold pop. rewrite removelast_last.
      eexists. split; [reflexivity|]. cbn [TreeSelectionState.selectionStack].
      rewrite typed_app, anchored_app, Ht1, Ha1.
      cbn [anchored] in Ha2. rewrite Hr in Ha2.
      cbn [anchored typed forallb type isRANGE isTOGGLE andb orb].
      rewrite andb_true_r in *. rewrite Ha2. split; reflexivity.
    + assert (Htg : isTOGGLE (type g) = true).
      { apply (@typed_not_range [g] g); [assumption | now left | assumption]. }
      destruct (@range_scan tr (TreeSelection.mk selectedNode (Some RANGE))
                  (option_map node (nth_error (c ++ [g]) (S (List.length c) - 1)))
                  (c ++ [g]) (S (List.length c)) eq_refl)
        as (rm & k & Hloop & Hk & Hdesc & Hwin & Htops).
      { lia. }
      { intros g' Hg'. rewrite Hlen in Hg'.
        replace (S (List.length c) - 1) with (List.length c) in Hg' by lia.
        congruence. }
      rewrite Hloop. cbn [bind fst snd].
      assert (Hshift : descending (shift rm)
                /\ Forall (fun i => Nat.min k (List.length c) <= i
                                    /\ i < List.length c) (shift rm)).
      { destruct rm as [|i0 rm]; [split; [exact I | constructor]|].
        destruct Hdesc as [Hbelow Hdesc]. split; [exact Hdesc|].
        inversion Hwin as [|? ? [_ Hi0] Hwin']; subst.
        cbn [shift tl]. rewrite Forall_forall in *. intros i Hi.
        specialize (Hbelow i Hi). destruct (Hwin' i Hi). lia. }
      destruct Hshift as [Hdesc' Hwin'].
      destruct (@spliceEach_tops _ _ c [g] (Nat.min k (List.length c))
                  (Nat.le_min_r _ _) Hdesc' Hwin') as (tops' & Heq & Hincl).
      rewrite Heq.
      assert (Htoggles : Forall (fun t => isTOGGLE (type t) = true)
                (skipn (Nat.min k (List.length c)) c)).
      { apply (@tops_are_toggles c _ (List.length c) Ht1 (le_n _)).
        intros j t Hj Hlt Ht. apply (Htops j t); [lia | lia |].
        rewrite nth_error_app1 by lia. exact Ht. }
      pose proof (@Forall_incl _ _ _ _ Hincl Htoggles) as Htoggles'.
      assert (Hall : Forall (fun t => isTOGGLE (type t) = true) (tops' ++ [g])).
      { apply Forall_app. split; [assumption|]. now constructor. }
      rewrite <- (firstn_skipn (Nat.min k (List.length c)) c) in Ht1, Ha1.
      rewrite typed_app in Ht1. rewrite anchored_app in Ha1.
      apply andb_true_iff in Ht1 as [Ht0 _].
      apply andb_true_iff in Ha1 as [Ha0 _].
      eexists. split; [reflexivity|]. cbn [TreeSelectionState.selectionStack].
      rewrite <- !app_assoc.
      rewrite typed_app, anchored_app, Ht0, Ha0. cbn [andb].
      rewrite app_assoc.
      rewrite typed_app, anchored_app, (@typed_toggles _ Hall),
        (@anchored_toggles _ _ Hall). cbn [andb].
      rewrite topIsToggle_toggles; [split; reflexivity | assumption |].
      left. destruct tops'; discriminate.
Qed.

Lemma nextState_invariant (tr : Tree) (state : TreeSelectionState.t)
    (selection : SelectionArg) :
  typed (TreeSelectionState.selectionStack state) = true ->
  anchored true (TreeSelectionState.selectionStack state) = true ->
  exists state',
    TreeSelectionState.nextState tr state selection = Ok state'
    /\ typed (TreeSelectionState.selectionStack state') = true
    /\ anchored true (TreeSelectionState.selectionStack state') = true.
Proof.
  intros Htyped Hanch. destruct selection as [|sel].
  - eexists. split; [reflexivity | split; reflexivity].
  - cbn [TreeSelectionState.nextState].
    destruct (type sel) as [[| |]|].
    + eexists. split; [reflexivity | split; reflexivity].
    + now apply handleToggle_invariant.
    + now apply handleRange_invariant.
    + eexists. split; [reflexivity | split; reflexivity].
Qed.

Lemma reachable_invariant (state : TreeSelectionState.t) :
  reachable state ->
  typed (TreeSelectionState.selectionStack state) = true
  /\ anchored true (TreeSelectionState.selectionStack state) = true.
Proof.
  induction 1 as [|tr state state' selection _ [Htyped Hanch] Hnext].
  - split; reflexivity.
  - destruct (@nextState_invariant tr state selection Htyped Hanch)
      as (state'' & Hnext' & Hinv).
    rewrite Hnext in Hnext'. inversion Hnext'; subst. exact Hinv.
Qed.

Lemma typed_noDefault (stack : list TreeSelection.t) :
  typed stack = true -> noDefault stack.
Proof.
  unfold typed, noDefault. intros H sel Hin.
  rewrite forallb_forall in H. specialize (H sel Hin).
  destruct (type sel) as [[| |]|]; simpl in H; try discriminate; auto.
Qed.

Lemma anchored_rangeOnToggle (stack : list TreeSelection.t) (b : bool) :
  anchored b stack = true -> rangeOnToggle stack.
Proof.
  revert b. induction stack as [|g rest IH]; intros b H i prev sel Hp Hs Hr.
  - destruct i; discriminate.
  - cbn [anchored] in H. apply andb_true_iff in H as [_ H].
    destruct i as [|i].
    + cbn [nth_error] in Hp, Hs. inversion Hp; subst prev.
      destruct rest as [|sel' rest']; [discriminate|].
      cbn [nth_error] in Hs. inversion Hs; subst sel'.
      cbn [anchored] in H. rewrite Hr in H. cbn [isRANGE] in H.
      apply andb_true_iff in H as [H _].
      destruct (type g) as [[| |]|]; simpl in H; congruence.
    + exact (IH _ H i prev sel Hp Hs Hr).
Qed.

(** C2, as the code has it: the stack of a reachable state holds no
    DEFAULT gesture, and every RANGE gesture that has a gesture below it
    sits on a TOGGLE; a RANGE may be the first element, which is what a
    RANGE gesture on the empty stack leaves. *)
Theorem reachable_stack_invariant (state : TreeSelectionState.t) :
  reachable state ->
  noDefault (TreeSelectionState.selectionStack state)
  /\ rangeOnToggle (TreeSelectionState.selectionStack state).
Proof.
  intros Hreach. destruct (reachable_invariant Hreach) as [Htyped Hanch].
  split; [now apply typed_noDefault | now apply anchored_rangeOnToggle in Hanch].
Qed.

Lemma reachable_stack_invariant_witness :
  reachable
    (TreeSelectionState.mk [toggleOf "1.1"; toggleOf "1.2.1.1"; rangeOf "1.2.1.2"])
  /\ noDefault [toggleOf "1.1"; toggleOf "1.2.1.1"; rangeOf "1.2.1.2"]
  /\ rangeOnToggle [toggleOf "1.1"; toggleOf "1.2.1.1"; rangeOf "1.2.1.2"].
Proof.
  assert (H : reachable
    (TreeSelectionState.mk
       [toggleOf "1.1"; toggleOf "1.2.1.1"; rangeOf "1.2.1.2"])).
  { apply (@reachable_nextStates mockTree
             [ gesture (toggleOf "1.1"); gesture (toggleOf "1.2.1.1");
               gesture (rangeOf "1.2.3"); gesture (rangeOf "1.2.1.2") ]
             TreeSelectionState.empty _ reachable_empty).
    vm_compute. reflexivity. }
  split; [exact H|].
  exact (@reachable_stack_invariant _ H).
Defined.

(** C2 as stated fails: a RANGE gesture on the empty stack reaches a
    state whose stack starts with that RANGE. *)
Lemma range_first_reachable :
  exists state,
    reachable state
    /\ TreeSelectionState.selectionStack state = [rangeOf "1.1"]
    /\ ~ rangeNeverFirst (TreeSelectionState.selectionStack state).
Proof.
  exists (TreeSelectionState.mk [rangeOf "1.1"]). split; [|split].
  - apply (@reachable_next mockTree TreeSelectionState.empty _
             (gesture (rangeOf "1.1")) reachable_empty).
    reflexivity.
  - reflexivity.
  - intros H. apply (H (rangeOf "1.1")); reflexivity.
Qed.

(** ** The shape of a range and the place of its anchor *)

Lemma loop_incl (from to : NodeId) (it : list NodeId) :
  forall started finished range n,
    In n (selectionRange_loop from to it started finished range) ->
    In n range \/ In n it.
Proof.
  induction it as [|x it IH]; intros started finished range n H;
    [now left|].
  cbn [selectionRange_loop] in H. destruct finished; [now left|].
  apply IH in H as [H|H]; [|right; now right].
  match type of H with In _ (if ?c then _ else _) => destruct c end;
    [|now left].
  apply in_app_or in H as [H|[<-|[]]]; [now left | right; now left].
Qed.

Lemma state_range_member (tr : Tree) (from : option NodeId) (to n : NodeId) :
  In n (TreeSelectionState.selectionRange tr from to) ->
  SelectableTreeNode_is tr n = true
  /\ exists r, root tr = Some r /\ In n (prunedOrder r).
Proof.
  unfold TreeSelectionState.selectionRange.
  destruct from as [from|]; [|intros []].
  destruct (String.eqb to from); [intros []|].
  destruct (root tr) as [r|]; [|intros []].
  destruct (validateNode tr (Some to)); [|intros []].
  destruct (validateNode tr (Some from)); [|intros []].
  unfold orientRange. intros H. apply filter_In in H as [H Hsel].
  split; [assumption|]. exists r. split; [reflexivity|].
  assert (Hraw : In n (selectionRange_loop n1 n0 (prunedOrder r) false false [])).
  { match type of H with In _ (if ?c then _ else _) => destruct c end;
      [now apply in_rev in H | assumption]. }
  apply loop_incl in Hraw as [[]|Hraw]. exact Hraw.
Qed.

Lemma atAnEnd_rev (a : NodeId) (l : list NodeId) :
  atAnEnd a l -> atAnEnd a (rev l).
Proof.
  intros [[l' ->]|[l' ->]].
  - right. exists (rev l'). reflexivity.
  - left. exists (rev l'). now rewrite rev_app_distr.
Qed.

Lemma atAnEnd_filter (f : NodeId -> bool) (a : NodeId) (l : list NodeId) :
  f a = true -> atAnEnd a l -> atAnEnd a (filter f l).
Proof.
  intros Hf [[l' ->]|[l' ->]].
  - left. exists (filter f l'). simpl. now rewrite Hf.
  - right. exists (filter f l'). rewrite filter_app. simpl. now rewrite Hf.
Qed.

(** The anchor, when the range holds it, is its first or its last node. *)
Lemma anchor_atAnEnd (tr : Tree) (a b : NodeId) :
  In a (TreeSelectionState.selectionRange tr (Some a) b) ->
  atAnEnd a (TreeSelectionState.selectionRange tr (Some a) b).
Proof.
  intros Hin. destruct (state_range_member _ _ _ _ Hin) as [Hsel _].
  revert Hin. unfold TreeSelectionState.selectionRange.
  destruct (String.eqb b a); [intros []|].
  destruct (root tr) as [r|]; [|intros []].
  destruct (validateNode tr (Some b)) as [to|] eqn:Hb; [|intros []].
  destruct (validateNode tr (Some a)) as [from|] eqn:Ha; [|intros []].
  assert (from = a) as ->.
  { unfold validateNode in Ha. destruct (getNode tr a); congruence. }
  assert (to = b) as ->.
  { unfold validateNode in Hb. destruct (getNode tr b); congruence. }
  unfold orientRange. intros Hin. apply filter_In in Hin as [Hin _].
  apply atAnEnd_filter; [assumption|].
  assert (Hraw : In a (selectionRange_loop a b (prunedOrder r) false false [])).
  { match type of Hin with In _ (if ?c then _ else _) => destruct c end;
      [now apply in_rev in Hin | assumption]. }
  assert (Hend : atAnEnd a
            (selectionRange_loop a b (prunedOrder r) false false [])).
  { destruct (loop_shape a b (prunedOrder r)) as [E|(x & mid & Hx & Hmid & E)].
    - rewrite E in Hraw. destruct Hraw.
    - destruct E as [E|(y & Hy & E)]; rewrite E in *.
      + destruct Hraw as [->|Hraw]; [left; now eexists|].
        destruct (Hmid a Hraw) as [Hne _]. congruence.
      + destruct Hraw as [->|Hraw]; [left; now eexists|].
        apply in_app_or in Hraw as [Hraw|[->|[]]].
        * destruct (Hmid a Hraw) as [Hne _]. congruence.
        * right. exists (x :: mid). reflexivity. }
  match goal with |- atAnEnd _ (if ?c then _ else _) => destruct c end;
    [now apply atAnEnd_rev | assumption].
Qed.

(** In a tree whose nodes are yielded once, a non-empty range holds its
    anchor as soon as the anchor is selectable and yielded. *)
Lemma range_holds_anchor (tr : Tree) (r : TreeNode) (a b : NodeId) :
  root tr = Some r ->
  NoDup (prunedOrder r) ->
  In a (prunedOrder r) ->
  SelectableTreeNode_is tr a = true ->
  TreeSelectionState.selectionRange tr (Some a) b <> [] ->
  In a (TreeSelectionState.selectionRange tr (Some a) b).
Proof.
  intros Hroot Hnd Ha Hsel. unfold TreeSelectionState.selectionRange.
  destruct (String.eqb_spec b a) as [|Hba]; [congruence|].
  rewrite Hroot.
  destruct (validateNode tr (Some b)) as [to|] eqn:Hb; [|congruence].
  destruct (validateNode tr (Some a)) as [from|] eqn:Hva; [|congruence].
  assert (from = a) as ->.
  { unfold validateNode in Hva. destruct (getNode tr a); congruence. }
  assert (to = b) as ->.
  { unfold validateNode in Hb. destruct (getNode tr b); congruence. }
  intros _. unfold orientRange. apply filter_In. split; [|assumption].
  assert (Hraw : In a (selectionRange_loop a b (prunedOrder r) false false [])).
  { destruct (in_dec string_dec b (prunedOrder r)) as [Hin|Hnin].
    - destruct (@two_nodes_of_order (prunedOrder r) a b Hnd
                  (fun E => Hba (eq_sym E)) Ha Hin)
        as (pre & mid & post & x & y & -> & Hends & Hxp & Hyp & Hxm & Hym).
      destruct Hends as [[-> ->]|[-> ->]].
      + rewrite loop_both; try (now apply apart_intro); auto. now left.
      + rewrite loop_both; try (now apply apart_intro); auto.
        right. apply in_or_app. right. now left.
    - apply in_split in Ha as (l1 & l2 & E). rewrite E in *.
      pose proof (NoDup_remove_2 _ _ _ Hnd) as Hnot.
      rewrite loop_one; [now left | | | now left].
      + apply apart_intro; intros H; [apply Hnot | apply Hnin];
          apply in_or_app; auto.
      + apply apart_intro; intros H; [apply Hnot | apply Hnin];
          apply in_or_app; [auto | right; now right]. }
  match goal with |- In _ (if ?c then _ else _) => destruct c end;
    [now apply in_rev in Hraw | assumption].
Qed.

(** ** Toggling the anchor of the topmost range *)

Lemma split_none (tr : Tree) (a : NodeId) (copy : list TreeSelection.t)
    (n : nat) :
  (forall from to, ~ In a (TreeSelectionState.selectionRange tr from to)) ->
  TreeSelectionState.handleToggle_split tr a copy n = None.
Proof.
  intros Hout. induction n as [|i IH]; [reflexivity|].
  cbn [TreeSelectionState.handleToggle_split].
  destruct (nth_error copy i) as [sel|]; [|reflexivity].
  destruct (isRANGE (type sel)); [|exact IH].
  match goal with
  | |- context [indexOf String.eqb ?range a] =>
      rewrite (proj2 (indexOf_absent range a)) by apply Hout
  end.
  exact IH.
Qed.

Lemma asArray_loop_app (tr : Tree) (c1 c2 : list TreeSelection.t) :
  forall nodes lastSelection,
    TreeSelectionState.asArray_loop tr (c1 ++ c2) nodes lastSelection
    = TreeSelectionState.asArray_loop tr c2
        (TreeSelectionState.asArray_loop tr c1 nodes lastSelection)
        (fold_left (fun _ sel => Some sel) c1 lastSelection).
Proof.
  induction c1 as [|sel c1 IH]; intros nodes lastSelection; [reflexivity|].
  cbn [app TreeSelectionState.asArray_loop fold_left]. apply IH.
Qed.

Lemma asArray_loop_toggles (tr : Tree) (items : list NodeId) :
  forall nodes lastSelection,
    TreeSelectionState.asArray_loop tr
      (map (fun n => TreeSelection.mk n (Some TOGGLE)) items)
      nodes lastSelection
    = nodes ++ items.
Proof.
  induction items as [|n items IH]; intros nodes lastSelection.
  - now rewrite app_nil_r.
  - cbn [map TreeSelectionState.asArray_loop type node isRANGE isTOGGLE].
    rewrite IH, <- app_assoc. reflexivity.
Qed.

Lemma map_tl (A B : Type) (f : A -> B) (l : list A) :
  tl (map f l) = map f (tl l).
Proof. now destruct l. Qed.

Lemma NoDup_app_disjoint (l1 l2 : list NodeId) (x : NodeId) :
  NoDup (l1 ++ l2) -> In x l1 -> In x l2 -> False.
Proof.
  intros Hnd H1 H2. apply in_split in H2 as (u & v & ->).
  rewrite app_assoc in Hnd. apply NoDup_remove_2 in Hnd.
  apply Hnd. apply in_or_app. left. apply in_or_app. now left.
Qed.

(** In a duplicate-free range where [x] follows the anchor [a], the
    anchor is the first node. *)
Lemma anchor_followed (a x : NodeId) (R pre post : list NodeId) :
  NoDup R -> atAnEnd a R -> R = pre ++ a :: x :: post ->
  pre = [].
Proof.
  intros Hnd Hend E. destruct Hend as [[R' HR]|[R' HR]].
  - destruct pre as [|p pre]; [reflexivity|]. exfalso.
    rewrite HR in E. cbn [app] in E. inversion E; subst.
    inversion Hnd as [|? ? Hnin _]. apply Hnin. apply in_or_app.
    right. now left.
  - exfalso. destruct (@exists_last _ (x :: post)) as (q & z & Hq);
      [discriminate|].
    assert (Hz : In z (x :: post)).
    { rewrite Hq. apply in_or_app. right. now left. }
    assert (Ha : In a (x :: post)).
    { assert (E2 : R' ++ [a] = (pre ++ a :: q) ++ [z]).
      { rewrite <- HR, E, Hq, <- app_assoc. reflexivity. }
      apply app_inj_tail in E2 as [_ ->]. exact Hz. }
    rewrite E in Hnd. apply NoDup_remove_2 in Hnd.
    apply Hnd. apply in_or_app. now right.
Qed.

(** C9, as the code has it: in a reachable state whose topmost gesture
    is a RANGE with a non-empty range from its anchor, toggling the
    anchor returns a state whose projection still holds the anchor; when
    the projection before the toggle has no duplicate, the node that
    follows the anchor in the range is no longer selected. *)
Theorem toggle_anchor_of_top_range (tr : Tree) (state : TreeSelectionState.t)
    (rest : list TreeSelection.t) (ga r : TreeSelection.t) :
  (forall r0, root tr = Some r0 -> NoDup (prunedOrder r0)) ->
  reachable state ->
  TreeSelectionState.selectionStack state = rest ++ [ga; r] ->
  type r = Some RANGE ->
  TreeSelectionState.selectionRange tr (Some (node ga)) (node r) <> [] ->
  exists state' arr',
    TreeSelectionState.nextState tr state (gesture (toggleOf (node ga)))
      = Ok state'
    /\ TreeSelectionState.asArray tr state' = Ok arr'
    /\ In (node ga) arr'
    /\ forall arr,
         TreeSelectionState.asArray tr state = Ok arr ->
         NoDup arr ->
         forall pre x post,
           TreeSelectionState.selectionRange tr (Some (node ga)) (node r)
             = pre ++ node ga :: x :: post ->
           ~ In x arr'.
Proof.
  intros Horder Hreach Hstack Hr Hne.
  destruct (reachable_invariant Hreach) as [Htyped Hanch].
  destruct state as [copy]. cbn [TreeSelectionState.selectionStack] in *.
  subst copy.
  set (a := node ga) in *. set (b := node r) in *.
  set (R := TreeSelectionState.selectionRange tr (Some a) b) in *.
  set (N := TreeSelectionState.asArray_loop tr rest [] None).
  assert (Hnth0 : nth_error (rest ++ [ga; r]) (List.length rest) = Some ga).
  { rewrite nth_error_app2 by lia. now rewrite Nat.sub_diag. }
  assert (Hnth1 : nth_error (rest ++ [ga; r]) (S (List.length rest)) = Some r).
  { rewrite nth_error_app2 by lia.
    now replace (S (List.length rest) - List.length rest) with 1 by lia. }
  assert (Hga : type ga = Some TOGGLE).
  { exact (@anchored_rangeOnToggle _ _ Hanch _ _ _ Hnth0 Hnth1 Hr). }
  assert (Hlen : List.length (rest ++ [ga; r]) = S (S (List.length rest)))
    by (rewrite length_app; simpl; lia).
  assert (Hbelow : TreeSelectionState.asArray_loop tr (rest ++ [ga]) [] None
                   = N ++ [a]).
  { rewrite asArray_loop_app.
    cbn [TreeSelectionState.asArray_loop]. now rewrite Hga. }
  assert (Hold : TreeSelectionState.asArray_loop tr (rest ++ [ga; r]) [] None
                 = N ++ R).
  { rewrite asArray_loop_app.
    cbn [TreeSelectionState.asArray_loop]. rewrite Hga, Hr.
    cbn [isRANGE isTOGGLE option_map]. unfold pop.
    now rewrite removelast_last. }
  assert (HndNR : forall arr,
            TreeSelectionState.asArray tr
              (TreeSelectionState.mk (rest ++ [ga; r])) = Ok arr ->
            NoDup arr -> NoDup (N ++ R)).
  { intros arr Harr Hnd. unfold TreeSelectionState.asArray in Harr.
    cbn [TreeSelectionState.selectionStack] in Harr.
    rewrite (@check_typed _ Htyped) in Harr. cbn [bind] in Harr.
    inversion Harr as [Harr']. rewrite Hold in Harr'. subst arr.
    apply NoDup_rev in Hnd. now rewrite rev_involutive in Hnd. }
  destruct (@handleToggle_invariant tr
              (TreeSelectionState.mk (rest ++ [ga; r])) a Htyped Hanch)
    as (state' & Hnext & Htyped' & _).
  exists state'. cbn [TreeSelectionState.nextState toggleOf type node].
  fold a. pose proof Hnext as Hnext0.
  unfold TreeSelectionState.handleToggle in Hnext.
  cbn [TreeSelectionState.selectionStack] in Hnext.
  rewrite (@check_typed _ Htyped) in Hnext. cbn [bind] in Hnext.
  rewrite Hlen in Hnext.
  destruct (in_dec string_dec a R) as [Hin|Hnin].
  - (* the range is split *)
    assert (Hidx : negb (indexOf String.eqb R a =? -1)%Z = true).
    { apply indexOf_found in Hin. apply negb_true_iff, Z.eqb_neq. lia. }
    cbn [TreeSelectionState.handleToggle_split] in Hnext.
    rewrite Hnth1, Hnth0, Hr in Hnext.
    cbn [isRANGE option_map] in Hnext. fold a b R in Hnext.
    rewrite Hidx in Hnext.
    replace (rest ++ [ga; r]) with ((rest ++ [ga]) ++ r :: [])
      in Hnext by (now rewrite <- app_assoc).
    replace (S (List.length rest)) with (List.length (rest ++ [ga]))
      in Hnext by (rewrite length_app; simpl; lia).
    rewrite splice_at, app_nil_r in Hnext.
    unfold shift in Hnext. rewrite map_tl in Hnext.
    inversion Hnext as [Hstate]. subst state'.
    cbn [TreeSelectionState.selectionStack] in Htyped'.
    eexists. split; [exact Hnext0|].
    unfold TreeSelectionState.asArray.
    cbn [TreeSelectionState.selectionStack].
    rewrite (@check_typed _ Htyped'). cbn [bind].
    rewrite asArray_loop_app, Hbelow, asArray_loop_toggles.
    split; [reflexivity|]. split.
    + apply in_rev. rewrite rev_involutive. apply in_or_app. left.
      apply in_or_app. right. now left.
    + intros arr Harr Hnd pre x post E Hx.
      specialize (HndNR arr Harr Hnd).
      assert (HndR : NoDup R) by (now apply NoDup_app_remove_l in HndNR).
      pose proof (anchor_atAnEnd tr a b Hin) as Hend. fold R in Hend.
      pose proof (@anchor_followed a x R pre post HndR Hend E) as ->.
      cbn [app] in E.
      rewrite E in Hx. rewrite indexOf_here in Hx.
      cbn [Z.to_nat splice firstn skipn app tl Nat.add] in Hx.
      rewrite <- in_rev in Hx.
      rewrite E in HndR, HndNR.
      apply in_app_or in Hx as [Hx|Hx].
      * apply in_app_or in Hx as [Hx|[Hx|[]]].
        -- apply (@NoDup_app_disjoint _ _ x HndNR Hx). right. now left.
        -- subst x. inversion HndR as [|? ? Hnot _]. apply Hnot. now left.
      * inversion HndR as [|? ? _ HndR']. inversion HndR' as [|? ? Hnot _].
        contradiction.
  - (* the anchor is out of every range *)
    assert (Hout : forall from to,
              ~ In a (TreeSelectionState.selectionRange tr from to)).
    { intros from to H.
      destruct (state_range_member _ _ _ _ H) as [Hsel (r0 & Hroot & Hin)].
      apply Hnin. unfold R.
      apply (@range_holds_anchor tr r0 a b Hroot (Horder r0 Hroot) Hin Hsel).
      exact Hne. }
    rewrite (@split_none tr a _ _ Hout) in Hnext.
    cbn [TreeSelectionState.handleToggle_merge] in Hnext.
    rewrite Hnth1, Hr in Hnext.
    cbn [isRANGE spliceEach fold_left List.length Nat.ltb Nat.leb] in Hnext.
    inversion Hnext as [Hstate]. subst state'.
    cbn [TreeSelectionState.selectionStack] in Htyped'.
    eexists. split; [exact Hnext0|].
    unfold TreeSelectionState.asArray.
    cbn [TreeSelectionState.selectionStack].
    rewrite (@check_typed _ Htyped'). cbn [bind].
    rewrite asArray_loop_app, Hold.
    cbn [TreeSelectionState.asArray_loop type node isRANGE isTOGGLE].
    split; [reflexivity|]. split.
    + apply in_rev. rewrite rev_involutive. apply in_or_app. right. now left.
    + intros arr _ _ pre x post E _. apply Hnin. rewrite E. apply in_or_app.
      right. now left.
Qed.

Lemma toggle_anchor_of_top_range_witness :
  exists state' arr',
    TreeSelectionState.nextState mockTree
      (TreeSelectionState.mk [toggleOf "1.1"; rangeOf "1.2"])
      (gesture (toggleOf "1.1")) = Ok state'
    /\ TreeSelectionState.asArray mockTree state' = Ok arr'
    /\ In "1.1" arr'
    /\ ~ In "1.1.1" arr'.
Proof.
  destruct (@toggle_anchor_of_top_range mockTree
              (TreeSelectionState.mk [toggleOf "1.1"; rangeOf "1.2"])
              [] (toggleOf "1.1") (rangeOf "1.2"))
    as (state' & arr' & Hnext & Harr & Hin & Hout).
  - intros r0 H. inversion H; subst. vm_compute.
    repeat constructor; simpl; intuition discriminate.
  - apply (@reachable_nextStates mockTree
             [gesture (toggleOf "1.1"); gesture (rangeOf "1.2")]
             TreeSelectionState.empty _ reachable_empty).
    vm_compute. reflexivity.
  - reflexivity.
  - reflexivity.
  - vm_compute. discriminate.
  - exists state', arr'. split; [exact Hnext|]. split; [exact Harr|].
    split; [exact Hin|].
    apply (Hout ["1.2"; "1.1.2"; "1.1.1"; "1.1"]) with (pre := [])
      (post := ["1.1.2"; "1.2"]).
    + vm_compute. reflexivity.
    + repeat constructor; simpl; intuition discriminate.
    + vm_compute. reflexivity.
Defined.

(** C9 as stated fails where an older range overlaps the topmost one:
    after TOGGLE 1.1.2, RANGE 1.2, TOGGLE 1.2.1, RANGE 1.1 on the mock
    tree the topmost range runs from its anchor 1.2.1 over 1.2 down to
    1.1; toggling 1.2.1 leaves 1.2 selected, through the older range. *)
Lemma toggle_anchor_keeps_follower :
  exists state,
    reachable state
    /\ TreeSelectionState.selectionStack state
       = [toggleOf "1.1.2"; rangeOf "1.2"; toggleOf "1.2.1"; rangeOf "1.1"]
    /\ TreeSelectionState.selectionRange mockTree (Some "1.2.1") "1.1"
       = ["1.2.1"; "1.2"; "1.1.2"; "1.1.1"; "1.1"]
    /\ (state' <- TreeSelectionState.nextState mockTree state
                    (gesture (toggleOf "1.2.1")) ;;
        TreeSelectionState.asArray mockTree state')
       = Ok ["1.1"; "1.1.1"; "1.1.2"; "1.2.1"; "1.2"; "1.1.2"]
    /\ In "1.2" ["1.1"; "1.1.1"; "1.1.2"; "1.2.1"; "1.2"; "1.1.2"].
Proof.
  exists (TreeSelectionState.mk
            [toggleOf "1.1.2"; rangeOf "1.2"; toggleOf "1.2.1"; rangeOf "1.1"]).
  split; [|split; [reflexivity|split; [|split]]].
  - apply (@reachable_nextStates mockTree
             [ gesture (toggleOf "1.1.2"); gesture (rangeOf "1.2");
               gesture (toggleOf "1.2.1"); gesture (rangeOf "1.1") ]
             TreeSelectionState.empty _ reachable_empty).
    vm_compute. reflexivity.
  - vm_compute. reflexivity.
  - vm_compute. reflexivity.
  - simpl. auto 6.
Qed.


(** * Further properties of the code *)

(** ** The list based service and the tree model *)

Lemma existsb_eqb_In (n : NodeId) (l : list NodeId) :
  existsb (String.eqb n) l = true <-> In n l.
Proof.
  rewrite existsb_exists. split.
  - intros (x & Hx & E). apply String.eqb_eq in E. now subst.
  - intros H. exists n. split; [assumption | apply String.eqb_refl].
Qed.

Lemma setSelection_flagsAgree (tr : Tree) (svc : TreeSelectionServiceImpl.t)
    (nodes : list NodeId) :
  flagsAgree svc ->
  flagsAgree (TreeSelectionServiceImpl.setSelection tr svc nodes).
Proof.
  intros Hagree n. unfold TreeSelectionServiceImpl.setSelection,
    TreeSelectionServiceImpl.doSelectNodes,
    TreeSelectionServiceImpl.selectedNodes.
  cbn [TreeSelectionServiceImpl.selected TreeSelectionServiceImpl._selectedNodes].
  match goal with
  | |- context [existsb (String.eqb n) ?copy] =>
      destruct (existsb (String.eqb n) copy) eqn:E
  end.
  - apply existsb_eqb_In in E. tauto.
  - assert (Hnot : ~ In n
      (filter (SelectableTreeNode_is tr)
         (filter (fun n0 => match validateNode tr (Some n0) with
                            | Some _ => true
                            | None => false
                            end) nodes))).
    { intros H. apply existsb_eqb_In in H. congruence. }
    destruct (existsb (String.eqb n)
                (TreeSelectionServiceImpl._selectedNodes svc)) eqn:E'.
    + split; [discriminate | contradiction].
    + split; [|contradiction]. intros H. apply Hagree in H.
      apply existsb_eqb_In in H.
      unfold TreeSelectionServiceImpl.selectedNodes in H. congruence.
Qed.

Lemma setSelection_selectionValid (tr : Tree)
    (svc : TreeSelectionServiceImpl.t) (nodes : list NodeId) :
  selectionValid tr
    (TreeSelectionServiceImpl.selectedNodes
       (TreeSelectionServiceImpl.setSelection tr svc nodes)).
Proof.
  intros n Hn. unfold TreeSelectionServiceImpl.setSelection,
    TreeSelectionServiceImpl.doSelectNodes,
    TreeSelectionServiceImpl.selectedNodes in Hn.
  cbn [TreeSelectionServiceImpl._selectedNodes] in Hn.
  apply filter_In in Hn as [_ Hsel].
  split; [now apply selectable_is_valid | assumption].
Qed.

(** Every operation either leaves the service alone or goes through
    [setSelection]. *)
Lemma applyOp_shape (tr : Tree) (svc : TreeSelectionServiceImpl.t)
    (op : ModelOp) :
  applyOp tr svc op = svc
  \/ exists nodes,
       applyOp tr svc op = TreeSelectionServiceImpl.setSelection tr svc nodes.
Proof.
  destruct op as [nodes|node preserve|node|node|toNode fromNode preserve|node];
    cbn [applyOp].
  - right. now eexists.
  - unfold TreeModelImpl.selectNode. destruct preserve; [|right; now eexists].
    destruct (_ =? -1)%Z; [right; now eexists|].
    destruct (negb _); [right; now eexists | now left].
  - unfold TreeModelImpl.unselectNode.
    destruct (negb _); [right; now eexists | now left].
  - unfold TreeModelImpl.toggleSelection, TreeModelImpl.unselectNode,
      TreeModelImpl.selectNode.
    destruct (TreeSelectionServiceImpl.selected svc node).
    + destruct (negb _); [right; now eexists | now left].
    + destruct (_ =? -1)%Z; [right; now eexists|].
      destruct (negb _); [right; now eexists | now left].
  - unfold TreeModelImpl.selectRange.
    destruct (Nat.eqb _ 0); [now left|].
    destruct preserve; right; now eexists.
  - unfold TreeModelImpl.onExpansionChanged.
    destruct (_ && _); [|now left].
    destruct (SelectableTreeNode_isVisible tr node);
      [right; now eexists | now left].
Qed.

(** X1: every selection operation of the tree model keeps the [selected]
    flags of the nodes in step with the selected list, and keeps the
    selected list within the selectable nodes of the tree. *)
Theorem model_operations_keep_consistency (tr : Tree)
    (svc : TreeSelectionServiceImpl.t) (op : ModelOp) :
  flagsAgree svc ->
  selectionValid tr (TreeSelectionServiceImpl.selectedNodes svc) ->
  flagsAgree (applyOp tr svc op)
  /\ selectionValid tr
       (TreeSelectionServiceImpl.selectedNodes (applyOp tr svc op)).
Proof.
  intros Hagree Hvalid.
  destruct (applyOp_shape tr svc op) as [->|[nodes ->]].
  - now split.
  - split; [now apply setSelection_flagsAgree
           | apply setSelection_selectionValid].
Qed.

Lemma model_operations_keep_consistency_witness :
  flagsAgree noSelection
  /\ selectionValid mockTree (TreeSelectionServiceImpl.selectedNodes noSelection)
  /\ flagsAgree (applyOp mockTree noSelection (OpSelectNode "1.1" true))
  /\ selectionValid mockTree
       (TreeSelectionServiceImpl.selectedNodes
          (applyOp mockTree noSelection (OpSelectNode "1.1" true))).
Proof.
  assert (H1 : flagsAgree noSelection).
  { intros n. simpl. split; [discriminate | intros []]. }
  assert (H2 : selectionValid mockTree
                 (TreeSelectionServiceImpl.selectedNodes noSelection)).
  { intros n []. }
  split; [exact H1|]. split; [exact H2|].
  exact (@model_operations_keep_consistency mockTree noSelection
           (OpSelectNode "1.1" true) H1 H2).
Defined.

Lemma selectNode_preserve_cases (tr : Tree) (svc : TreeSelectionServiceImpl.t)
    (n : NodeId) :
  selectionValid tr (n :: TreeSelectionServiceImpl.selectedNodes svc) ->
  (~ In n (TreeSelectionServiceImpl.selectedNodes svc) ->
   TreeSelectionServiceImpl.selectedNodes
     (TreeModelImpl.selectNode tr svc n true)
   = n :: TreeSelectionServiceImpl.selectedNodes svc)
  /\ (forall rest,
        TreeSelectionServiceImpl.selectedNodes svc = n :: rest ->
        TreeModelImpl.selectNode tr svc n true = svc)
  /\ (forall l1 l2,
        TreeSelectionServiceImpl.selectedNodes svc = l1 ++ n :: l2 ->
        l1 <> [] -> ~ In n l1 ->
        TreeSelectionServiceImpl.selectedNodes
          (TreeModelImpl.selectNode tr svc n true)
        = n :: l1 ++ l2).
Proof.
  intros Hvalid. unfold TreeModelImpl.selectNode. repeat split.
  - intros Hnin. rewrite (proj2 (indexOf_absent _ n) Hnin). cbn [Z.eqb].
    now apply setSelection_valid.
  - intros rest E. rewrite E, indexOf_here. reflexivity.
  - intros l1 l2 E Hne Hnin. rewrite E, indexOf_after by assumption.
    assert (Hlen : 0 < List.length l1) by (destruct l1; [congruence | simpl; lia]).
    destruct (Z.of_nat (List.length l1) =? -1)%Z eqn:E1;
      [apply Z.eqb_eq in E1; lia|].
    destruct (Z.of_nat (List.length l1) =? 0)%Z eqn:E0;
      [apply Z.eqb_eq in E0; lia|].
    cbn [negb]. rewrite Nat2Z.id, splice_at. cbn [app].
    apply setSelection_valid. intros x Hx. apply Hvalid.
    destruct Hx as [->|Hx]; [now left|]. right. rewrite E.
    apply in_or_app. apply in_app_or in Hx as [Hx|Hx];
      [now left | right; now right].
Qed.

(** X2: [selectNode] with [preserveSelection] puts a valid selectable
    node in front of a valid selection: a node that was not selected is
    added, the most recent node leaves the service untouched (no event),
    and a node selected earlier moves to the front while the others keep
    their order. *)
Theorem selectNode_preserve (tr : Tree) (svc : TreeSelectionServiceImpl.t)
    (n : NodeId) :
  selectionValid tr (n :: TreeSelectionServiceImpl.selectedNodes svc) ->
  (~ In n (TreeSelectionServiceImpl.selectedNodes svc) ->
   TreeSelectionServiceImpl.selectedNodes
     (TreeModelImpl.selectNode tr svc n true)
   = n :: TreeSelectionServiceImpl.selectedNodes svc)
  /\ (forall rest,
        TreeSelectionServiceImpl.selectedNodes svc = n :: rest ->
        TreeModelImpl.selectNode tr svc n true = svc)
  /\ (forall l1 l2,
        TreeSelectionServiceImpl.selectedNodes svc = l1 ++ n :: l2 ->
        l1 <> [] -> ~ In n l1 ->
        TreeSelectionServiceImpl.selectedNodes
          (TreeModelImpl.selectNode tr svc n true)
        = n :: l1 ++ l2).
Proof. exact (@selectNode_preserve_cases tr svc n). Qed.

Lemma selectNode_preserve_witness :
  selectionValid mockTree ["1.2"; "1"; "1.1"; "1.2"; "1.3"]
  /\ TreeSelectionServiceImpl.selectedNodes
       (TreeModelImpl.selectNode mockTree
          (TreeSelectionServiceImpl.mk ["1"; "1.1"; "1.2"; "1.3"]
             (fun _ => false) []) "1.2" true)
     = ["1.2"; "1"; "1.1"; "1.3"].
Proof.
  assert (H : selectionValid mockTree ["1.2"; "1"; "1.1"; "1.2"; "1.3"]).
  { intros n [<-|[<-|[<-|[<-|[<-|[]]]]]]; split; reflexivity. }
  split; [exact H|].
  apply (proj2 (proj2 (@selectNode_preserve mockTree
                         (TreeSelectionServiceImpl.mk
                            ["1"; "1.1"; "1.2"; "1.3"] (fun _ => false) [])
                         "1.2" H)) ["1"; "1.1"] ["1.3"]).
  - reflexivity.
  - discriminate.
  - simpl. intuition discriminate.
Defined.

Lemma filter_valid_drop (tr : Tree) (n : NodeId) (nodes : list NodeId) :
  validateNode tr (Some n) = None ->
  selectionValid tr nodes ->
  TreeSelectionServiceImpl.selectedNodes
    (TreeSelectionServiceImpl.setSelection tr noSelection (n :: nodes))
  = nodes.
Proof.
  intros Hinvalid Hvalid.
  unfold TreeSelectionServiceImpl.setSelection,
    TreeSelectionServiceImpl.doSelectNodes,
    TreeSelectionServiceImpl.selectedNodes.
  cbn [TreeSelectionServiceImpl._selectedNodes filter].
  rewrite Hinvalid. rewrite (@filter_all _ _ nodes).
  - apply filter_all. intros x Hx. now apply Hvalid.
  - intros x Hx. destruct (Hvalid x Hx) as [Hv _]. cbv beta. now rewrite Hv.
Qed.

(** X3: selecting a node that is not in the tree.  With
    [preserveSelection] the selected list stays as it was; without it the
    selection is emptied.  A selection-changed event is fired in both
    cases. *)
Theorem selectNode_invalid (tr : Tree) (svc : TreeSelectionServiceImpl.t)
    (n : NodeId) :
  validateNode tr (Some n) = None ->
  selectionValid tr (TreeSelectionServiceImpl.selectedNodes svc) ->
  (TreeSelectionServiceImpl.selectedNodes
     (TreeModelImpl.selectNode tr svc n true)
   = TreeSelectionServiceImpl.selectedNodes svc
   /\ TreeSelectionServiceImpl.fired (TreeModelImpl.selectNode tr svc n true)
      = TreeSelectionServiceImpl.selectedNodes svc
        :: TreeSelectionServiceImpl.fired svc)
  /\ (TreeSelectionServiceImpl.selectedNodes
        (TreeModelImpl.selectNode tr svc n false) = []
      /\ TreeSelectionServiceImpl.fired (TreeModelImpl.selectNode tr svc n false)
         = [] :: TreeSelectionServiceImpl.fired svc).
Proof.
  intros Hinvalid Hvalid.
  assert (Hnin : ~ In n (TreeSelectionServiceImpl.selectedNodes svc)).
  { intros H. destruct (Hvalid n H) as [Hv _]. congruence. }
  pose proof (filter_valid_drop n Hinvalid Hvalid) as Hdrop.
  unfold TreeModelImpl.selectNode.
  rewrite (proj2 (indexOf_absent _ n) Hnin). cbn [Z.eqb].
  unfold TreeSelectionServiceImpl.setSelection,
    TreeSelectionServiceImpl.doSelectNodes,
    TreeSelectionServiceImpl.selectedNodes in *.
  cbn [TreeSelectionServiceImpl._selectedNodes
       TreeSelectionServiceImpl.fired] in *.
  rewrite Hdrop. cbn [filter]. rewrite Hinvalid. cbn [filter].
  repeat split.
Qed.

Lemma selectNode_invalid_witness :
  validateNode mockTree (Some "missing") = None
  /\ selectionValid mockTree ["1"]
  /\ TreeSelectionServiceImpl.selectedNodes
       (TreeModelImpl.selectNode mockTree
          (TreeSelectionServiceImpl.mk ["1"] (fun _ => false) [])
          "missing" true) = ["1"]
  /\ TreeSelectionServiceImpl.selectedNodes
       (TreeModelImpl.selectNode mockTree
          (TreeSelectionServiceImpl.mk ["1"] (fun _ => false) [])
          "missing" false) = [].
Proof.
  assert (H1 : validateNode mockTree (Some "missing") = None) by reflexivity.
  assert (H2 : selectionValid mockTree ["1"]).
  { intros n [<-|[]]; split; reflexivity. }
  split; [exact H1|]. split; [exact H2|].
  destruct (@selectNode_invalid mockTree
              (TreeSelectionServiceImpl.mk ["1"] (fun _ => false) [])
              "missing" H1 H2) as [[Hkeep _] [Hclear _]].
  split; [exact Hkeep | exact Hclear].
Defined.

Lemma unselectNode_cases (tr : Tree) (svc : TreeSelectionServiceImpl.t)
    (n : NodeId) :
  (~ In n (TreeSelectionServiceImpl.selectedNodes svc) ->
   TreeModelImpl.unselectNode tr svc n = svc)
  /\ (forall l1 l2,
        TreeSelectionServiceImpl.selectedNodes svc = l1 ++ n :: l2 ->
        ~ In n l1 ->
        selectionValid tr (TreeSelectionServiceImpl.selectedNodes svc) ->
        TreeSelectionServiceImpl.selectedNodes
          (TreeModelImpl.unselectNode tr svc n) = l1 ++ l2).
Proof.
  unfold TreeModelImpl.unselectNode. split.
  - intros Hnin. now rewrite (proj2 (indexOf_absent _ n) Hnin).
  - intros l1 l2 E Hnin Hvalid. rewrite E, indexOf_after by assumption.
    destruct (Z.of_nat (List.length l1) =? -1)%Z eqn:E1;
      [apply Z.eqb_eq in E1; lia|].
    cbn [negb]. rewrite Nat2Z.id, splice_at. cbn [app].
    apply setSelection_valid. intros x Hx. apply Hvalid. rewrite E.
    apply in_or_app. apply in_app_or in Hx as [Hx|Hx];
      [now left | right; now right].
Qed.

(** X4: [unselectNode] takes the node out of a valid selection and
    keeps the order of the others; for a node that is not selected it
    leaves the service untouched, firing no event. *)
Theorem unselectNode_removes (tr : Tree) (svc : TreeSelectionServiceImpl.t)
    (n : NodeId) :
  (~ In n (TreeSelectionServiceImpl.selectedNodes svc) ->
   TreeModelImpl.unselectNode tr svc n = svc)
  /\ (forall l1 l2,
        TreeSelectionServiceImpl.selectedNodes svc = l1 ++ n :: l2 ->
        ~ In n l1 ->
        selectionValid tr (TreeSelectionServiceImpl.selectedNodes svc) ->
        TreeSelectionServiceImpl.selectedNodes
          (TreeModelImpl.unselectNode tr svc n) = l1 ++ l2).
Proof. exact (@unselectNode_cases tr svc n). Qed.

Lemma unselectNode_removes_witness :
  TreeSelectionServiceImpl.selectedNodes
    (TreeModelImpl.unselectNode mockTree
       (TreeSelectionServiceImpl.mk ["1.2"; "1.1"; "1"] (fun _ => false) [])
       "1.1") = ["1.2"; "1"].
Proof.
  apply (proj2 (@unselectNode_removes mockTree
                  (TreeSelectionServiceImpl.mk ["1.2"; "1.1"; "1"]
                     (fun _ => false) []) "1.1") ["1.2"] ["1"]).
  - reflexivity.
  - simpl. intuition discriminate.
  - intros n [<-|[<-|[<-|[]]]]; split; reflexivity.
Defined.

(** X5: with flags that agree with the selection, toggling a valid
    selectable node twice gives back the selected list when the node was
    not selected; when it was selected (once), the two toggles move it to
    the front. *)
Theorem toggleSelection_twice (tr : Tree) (svc : TreeSelectionServiceImpl.t)
    (n : NodeId) :
  flagsAgree svc ->
  selectionValid tr (n :: TreeSelectionServiceImpl.selectedNodes svc) ->
  (~ In n (TreeSelectionServiceImpl.selectedNodes svc) ->
   TreeSelectionServiceImpl.selectedNodes
     (TreeModelImpl.toggleSelection tr
        (TreeModelImpl.toggleSelection tr svc n) n)
   = TreeSelectionServiceImpl.selectedNodes svc)
  /\ (forall l1 l2,
        TreeSelectionServiceImpl.selectedNodes svc = l1 ++ n :: l2 ->
        ~ In n l1 -> ~ In n l2 ->
        TreeSelectionServiceImpl.selectedNodes
          (TreeModelImpl.toggleSelection tr
             (TreeModelImpl.toggleSelection tr svc n) n)
        = n :: l1 ++ l2).
Proof.
  intros Hagree Hvalid.
  assert (Hprior : selectionValid tr
            (TreeSelectionServiceImpl.selectedNodes svc)).
  { intros x Hx. apply Hvalid. now right. }
  split.
  - intros Hnin.
    assert (Hflag : TreeSelectionServiceImpl.selected svc n = false).
    { destruct (TreeSelectionServiceImpl.selected svc n) eqn:E;
        [|reflexivity]. now apply Hagree in E. }
    unfold TreeModelImpl.toggleSelection at 2. rewrite Hflag.
    pose proof (proj1 (selectNode_preserve_cases svc Hvalid) Hnin) as Hsel.
    assert (Hstep : TreeModelImpl.selectNode tr svc n true
              = TreeSelectionServiceImpl.setSelection tr svc
                  (n :: TreeSelectionServiceImpl.selectedNodes svc)).
    { unfold TreeModelImpl.selectNode.
      now rewrite (proj2 (indexOf_absent _ n) Hnin). }
    assert (Hagree' : flagsAgree (TreeModelImpl.selectNode tr svc n true)).
    { rewrite Hstep. now apply setSelection_flagsAgree. }
    unfold TreeModelImpl.toggleSelection.
    rewrite (proj2 (Hagree' n)) by (rewrite Hsel; now left).
    apply (proj2 (@unselectNode_cases tr
                    (TreeModelImpl.selectNode tr svc n true) n) [] _ Hsel).
    + intros [].
    + rewrite Hsel. exact Hvalid.
  - intros l1 l2 E Hn1 Hn2.
    assert (Hin : In n (TreeSelectionServiceImpl.selectedNodes svc)).
    { rewrite E. apply in_or_app. right. now left. }
    unfold TreeModelImpl.toggleSelection at 2.
    rewrite (proj2 (Hagree n) Hin).
    pose proof (proj2 (@unselectNode_cases tr svc n) l1 l2 E Hn1 Hprior)
      as Hun.
    assert (Hstep : TreeModelImpl.unselectNode tr svc n
              = TreeSelectionServiceImpl.setSelection tr svc
                  (splice (TreeSelectionServiceImpl.selectedNodes svc)
                     (Z.to_nat (indexOf String.eqb
                        (TreeSelectionServiceImpl.selectedNodes svc) n)) 1 [])).
    { unfold TreeModelImpl.unselectNode.
      apply indexOf_found in Hin.
      destruct (_ =? -1)%Z eqn:E1; [apply Z.eqb_eq in E1; lia | reflexivity]. }
    assert (Hagree' : flagsAgree (TreeModelImpl.unselectNode tr svc n)).
    { rewrite Hstep. now apply setSelection_flagsAgree. }
    assert (Hnin' : ~ In n (TreeSelectionServiceImpl.selectedNodes
                              (TreeModelImpl.unselectNode tr svc n))).
    { rewrite Hun. intros H. apply in_app_or in H as [H|H]; contradiction. }
    assert (Hflag : TreeSelectionServiceImpl.selected
                      (TreeModelImpl.unselectNode tr svc n) n = false).
    { destruct (TreeSelectionServiceImpl.selected _ n) eqn:E';
        [|reflexivity]. now apply Hagree' in E'. }
    unfold TreeModelImpl.toggleSelection. rewrite Hflag.
    rewrite <- Hun.
    assert (Hvalid' : selectionValid tr
              (n :: TreeSelectionServiceImpl.selectedNodes
                      (TreeModelImpl.unselectNode tr svc n))).
    { rewrite Hun. intros x [<-|Hx]; [apply Hvalid; now left|].
      apply Hprior. rewrite E. apply in_or_app.
      apply in_app_or in Hx as [Hx|Hx]; [now left | right; now right]. }
    exact (proj1 (@selectNode_preserve_cases tr
                    (TreeModelImpl.unselectNode tr svc n) n Hvalid') Hnin').
Qed.

Lemma toggleSelection_twice_witness :
  TreeSelectionServiceImpl.selectedNodes
    (TreeModelImpl.toggleSelection mockTree
       (TreeModelImpl.toggleSelection mockTree
          (TreeSelectionServiceImpl.mk ["1.2"; "1"]
             (fun n => existsb (String.eqb n) ["1.2"; "1"]) []) "1.1") "1.1")
  = ["1.2"; "1"].
Proof.
  assert (H1 : flagsAgree
                 (TreeSelectionServiceImpl.mk ["1.2"; "1"]
                    (fun n => existsb (String.eqb n) ["1.2"; "1"]) [])).
  { intros n. exact (existsb_eqb_In n ["1.2"; "1"]). }
  assert (H2 : selectionValid mockTree ["1.1"; "1.2"; "1"]).
  { intros n [<-|[<-|[<-|[]]]]; split; reflexivity. }
  apply (proj1 (@toggleSelection_twice mockTree
                  (TreeSelectionServiceImpl.mk ["1.2"; "1"]
                     (fun n => existsb (String.eqb n) ["1.2"; "1"]) [])
                  "1.1" H1 H2)).
  simpl. intuition discriminate.
Defined.

(** X6: [selectRange] does nothing (the service is untouched and no
    event is fired) when the two ends are the same node, when one of them
    is not in the tree, when no [from] is given and nothing is selected,
    or when the tree has no root. *)
Theorem selectRange_without_range (tr : Tree)
    (svc : TreeSelectionServiceImpl.t) (toNode : NodeId)
    (fromNode : option NodeId) (preserveSelection : bool) :
  let from := match fromNode with
              | Some f => Some f
              | None => hd_error (TreeSelectionServiceImpl.selectedNodes svc)
              end in
  from = Some toNode
  \/ from = None
  \/ validateNode tr (Some toNode) = None
  \/ validateNode tr from = None
  \/ root tr = None ->
  TreeModelImpl.selectRange tr svc toNode fromNode preserveSelection = svc.
Proof.
  intros from Hcase.
  assert (Hempty : TreeModelImpl.selectionRange tr toNode from = []).
  { unfold TreeModelImpl.selectionRange.
    destruct (TreeModelImpl.eqbOpt toNode from) eqn:Heq; [reflexivity|].
    destruct (root tr) as [r|]; [|reflexivity].
    destruct (validateNode tr (Some toNode)) as [to|]; [|reflexivity].
    destruct (validateNode tr from) as [f|] eqn:Hf; [|reflexivity].
    exfalso. destruct Hcase as [E|[E|[E|[E|E]]]]; try discriminate.
    - rewrite E in Heq. cbn [TreeModelImpl.eqbOpt] in Heq.
      now rewrite String.eqb_refl in Heq.
    - rewrite E in Hf. discriminate. }
  unfold TreeModelImpl.selectRange. fold from. now rewrite Hempty.
Qed.

Lemma selectRange_without_range_witness :
  TreeModelImpl.selectRange mockTree
    (TreeSelectionServiceImpl.mk ["1"] (fun _ => false) [])
    "missing" (Some "1") true
  = TreeSelectionServiceImpl.mk ["1"] (fun _ => false) [].
Proof.
  apply (@selectRange_without_range mockTree
           (TreeSelectionServiceImpl.mk ["1"] (fun _ => false) [])
           "missing" (Some "1") true).
  right. right. left. reflexivity.
Defined.

(** ** The gesture stack *)

Lemma reachable_total (state : TreeSelectionState.t) :
  reachable state ->
  (forall tr selection,
     exists state',
       TreeSelectionState.nextState tr state selection = Ok state'
       /\ reachable state')
  /\ (forall tr, exists nodes, TreeSelectionState.asArray tr state = Ok nodes).
Proof.
  intros Hreach. destruct (reachable_invariant Hreach) as [Htyped Hanch].
  split.
  - intros tr selection.
    destruct (@nextState_invariant tr state selection Htyped Hanch)
      as (state' & Hnext & _).
    exists state'. split; [assumption|].
    exact (@reachable_next tr state state' selection Hreach Hnext).
  - intros tr. unfold TreeSelectionState.asArray.
    rewrite (@check_typed _ Htyped). cbn [bind]. now eexists.
Qed.

(** X7: from a reachable state nothing throws: [nextState] returns a
    state, again reachable, for every argument and every tree, and
    [asArray] returns a list. *)
Theorem reachable_never_throws (state : TreeSelectionState.t) :
  reachable state ->
  (forall tr selection,
     exists state',
       TreeSelectionState.nextState tr state selection = Ok state'
       /\ reachable state')
  /\ (forall tr, exists nodes, TreeSelectionState.asArray tr state = Ok nodes).
Proof. exact (@reachable_total state). Qed.

Lemma reachable_never_throws_witness :
  exists state',
    TreeSelectionState.nextState mockTree
      (TreeSelectionState.mk [toggleOf "1.1"; rangeOf "1.2"])
      (gesture (toggleOf "1.1.1")) = Ok state'
    /\ reachable state'.
Proof.
  apply (proj1 (@reachable_never_throws
                  (TreeSelectionState.mk [toggleOf "1.1"; rangeOf "1.2"])
                  (@reachable_nextStates mockTree
                     [gesture (toggleOf "1.1"); gesture (rangeOf "1.2")]
                     TreeSelectionState.empty _ reachable_empty eq_refl))).
Defined.

(** X8: a stack that holds a gesture of type DEFAULT or without a type
    (the constructor accepts any stack) makes [asArray] and the TOGGLE and
    RANGE transitions throw; [reset] and a DEFAULT gesture still return a
    state, whose stack is sound again. *)
Theorem default_in_stack_throws (tr : Tree) (state : TreeSelectionState.t)
    (bad : TreeSelection.t) (n : NodeId) :
  In bad (TreeSelectionState.selectionStack state) ->
  type bad = None \/ type bad = Some DEFAULT ->
  TreeSelectionState.asArray tr state
    = Err "Unexpected DEFAULT selection type."
  /\ TreeSelectionState.nextState tr state (gesture (toggleOf n))
     = Err "Unexpected DEFAULT selection type."
  /\ TreeSelectionState.nextState tr state (gesture (rangeOf n))
     = Err "Unexpected DEFAULT selection type."
  /\ TreeSelectionState.nextState tr state reset = Ok TreeSelectionState.empty
  /\ TreeSelectionState.nextState tr state (gesture (defaultOf n))
     = Ok (TreeSelectionState.mk [toggleOf n]).
Proof.
  intros Hin Hbad.
  assert (Hcheck : TreeSelectionState.checkNoDefaultSelection
                     (TreeSelectionState.selectionStack state)
                   = Err "Unexpected DEFAULT selection type.").
  { unfold TreeSelectionState.checkNoDefaultSelection.
    replace (existsb _ (TreeSelectionState.selectionStack state)) with true;
      [reflexivity|].
    symmetry. apply existsb_exists. exists bad. split; [assumption|].
    destruct Hbad as [->| ->]; reflexivity. }
  cbn [TreeSelectionState.nextState toggleOf rangeOf defaultOf type node].
  unfold TreeSelectionState.asArray, TreeSelectionState.handleToggle,
    TreeSelectionState.handleRange.
  rewrite Hcheck. repeat split.
Qed.

Lemma default_in_stack_throws_witness :
  TreeSelectionState.asArray mockTree
    (TreeSelectionState.mk [toggleOf "1"; defaultOf "1.1"])
  = Err "Unexpected DEFAULT selection type.".
Proof.
  apply (@default_in_stack_throws mockTree
           (TreeSelectionState.mk [toggleOf "1"; defaultOf "1.1"])
           (defaultOf "1.1") "1").
  - right. now left.
  - now right.
Defined.

Lemma state_range_is_model_range (tr : Tree) (a b : NodeId) :
  TreeSelectionState.selectionRange tr (Some a) b
  = TreeModelImpl.selectionRange tr b (Some a).
Proof. reflexivity. Qed.

Lemma default_then_range_stack (tr : Tree) (state : TreeSelectionState.t)
    (a b : NodeId) :
  nextStates tr state [gesture (defaultOf a); gesture (rangeOf b)]
  = Ok (TreeSelectionState.mk [toggleOf a; rangeOf b]).
Proof.
  cbn [nextStates TreeSelectionState.nextState defaultOf rangeOf type node
       bind].
  unfold TreeSelectionState.handleRange, TreeSelectionState.handleDefault,
    TreeSelectionState.checkNoDefaultSelection.
  cbn [TreeSelectionState.selectionStack existsb type isDEFAULT orb
       bind List.length Nat.sub nth_error option_map node
       TreeSelectionState.handleRange_loop isRANGE].
  unfold TreeSelectionState.in_. cbn [type isRANGE negb node].
  destruct (root tr); [rewrite String.eqb_refl|]; reflexivity.
Qed.

Lemma default_then_range_projection (tr : Tree) (state : TreeSelectionState.t)
    (a b : NodeId) :
  (state' <- nextStates tr state [gesture (defaultOf a); gesture (rangeOf b)] ;;
   TreeSelectionState.asArray tr state')
  = Ok (rev (TreeSelectionState.selectionRange tr (Some a) b))
  /\ (state' <- nextStates tr state
                  [gesture (defaultOf a); gesture (rangeOf a)] ;;
      TreeSelectionState.asArray tr state')
     = Ok [].
Proof.
  rewrite !default_then_range_stack. cbn [bind].
  unfold TreeSelectionState.asArray.
  cbn [TreeSelectionState.selectionStack
       TreeSelectionState.checkNoDefaultSelection existsb toggleOf rangeOf
       type isDEFAULT orb bind TreeSelectionState.asArray_loop isRANGE
       isTOGGLE node app pop removelast option_map].
  split; [reflexivity|].
  unfold TreeSelectionState.selectionRange. now rewrite String.eqb_refl.
Qed.

(** X9: a DEFAULT gesture on [a] followed by a RANGE gesture on [b]
    (a click, then a shift-click) selects, from any state, the range from
    [a] to [b] with [b] as the most recent node; a RANGE gesture on the
    node just clicked leaves nothing selected. *)
Theorem default_then_range (tr : Tree) (state : TreeSelectionState.t)
    (a b : NodeId) :
  (state' <- nextStates tr state [gesture (defaultOf a); gesture (rangeOf b)] ;;
   TreeSelectionState.asArray tr state')
  = Ok (rev (TreeSelectionState.selectionRange tr (Some a) b))
  /\ (state' <- nextStates tr state
                  [gesture (defaultOf a); gesture (rangeOf a)] ;;
      TreeSelectionState.asArray tr state')
     = Ok [].
Proof. exact (@default_then_range_projection tr state a b). Qed.

(** X10: the two revisions select a range alike: when the range is not
    empty, [selectRange(to, from)] of the tree model without
    [preserveSelection] selects the list that the gesture stack projects
    after a DEFAULT gesture on [from] and a RANGE gesture on [to]. *)
Theorem selectRange_as_gestures (tr : Tree)
    (svc : TreeSelectionServiceImpl.t) (state : TreeSelectionState.t)
    (toNode fromNode : NodeId) :
  TreeModelImpl.selectionRange tr toNode (Some fromNode) <> [] ->
  (state' <- nextStates tr state
               [gesture (defaultOf fromNode); gesture (rangeOf toNode)] ;;
   TreeSelectionState.asArray tr state')
  = Ok (TreeSelectionServiceImpl.selectedNodes
          (TreeModelImpl.selectRange tr svc toNode (Some fromNode) false)).
Proof.
  intros Hne.
  rewrite (proj1 (default_then_range_projection tr state fromNode toNode)).
  rewrite state_range_is_model_range. f_equal.
  unfold TreeModelImpl.selectRange.
  assert (Hlen : Nat.eqb (List.length
                   (rev (TreeModelImpl.selectionRange tr toNode
                           (Some fromNode)))) 0 = false).
  { apply Nat.eqb_neq. rewrite length_rev.
    destruct (TreeModelImpl.selectionRange tr toNode (Some fromNode));
      [congruence | discriminate]. }
  rewrite Hlen. symmetry. apply setSelection_valid.
  intros n Hn. apply in_rev in Hn. apply model_range_selectable in Hn.
  split; [now apply selectable_is_valid | assumption].
Qed.

Lemma selectRange_as_gestures_witness :
  (state' <- nextStates mockTree TreeSelectionState.empty
               [gesture (defaultOf "1.2.1.2"); gesture (rangeOf "1.3")] ;;
   TreeSelectionState.asArray mockTree state')
  = Ok (TreeSelectionServiceImpl.selectedNodes
          (TreeModelImpl.selectRange mockTree noSelection "1.3"
             (Some "1.2.1.2") false)).
Proof.
  apply (@selectRange_as_gestures mockTree noSelection
           TreeSelectionState.empty "1.3" "1.2.1.2").
  vm_compute. discriminate.
Defined.

(** *** Stacks of toggles *)

Lemma splice_app_left (A : Type) (c rest : list A) (p : nat) :
  p < List.length c ->
  splice (c ++ rest) p 1 [] = splice c p 1 [] ++ rest.
Proof.
  intros Hp.
  assert (H : nth_error c p <> None) by (apply nth_error_Some; lia).
  destruct (nth_error c p) as [a|] eqn:E; [clear H | congruence].
  apply nth_error_split in E as (l1 & l2 & -> & <-).
  rewrite <- app_assoc. cbn [app]. rewrite !splice_at.
  cbn [app]. now rewrite app_assoc.
Qed.

Lemma splice_shorter (A : Type) (c : list A) (p : nat) :
  p < List.length c ->
  List.length (splice c p 1 []) = List.length c - 1.
Proof.
  intros Hp.
  assert (H : nth_error c p <> None) by (apply nth_error_Some; lia).
  destruct (nth_error c p) as [a|] eqn:E; [clear H | congruence].
  apply nth_error_split in E as (l1 & l2 & -> & <-).
  rewrite splice_at. cbn [app]. rewrite !length_app. simpl. lia.
Qed.

Lemma spliceEach_app (A : Type) (indices : list nat) :
  forall (c rest : list A),
    descending indices ->
    Forall (fun i => i < List.length c) indices ->
    spliceEach indices (c ++ rest) = spliceEach indices c ++ rest.
Proof.
  induction indices as [|p indices IH]; intros c rest Hdesc Hlt;
    [reflexivity|].
  destruct Hdesc as [Hbelow Hdesc].
  inversion Hlt as [|? ? Hp Hlt']; subst.
  unfold spliceEach in *. cbn [fold_left].
  rewrite splice_app_left by assumption. apply IH; [assumption|].
  rewrite Forall_forall in *. intros i Hi. specialize (Hbelow i Hi).
  rewrite splice_shorter by assumption. lia.
Qed.

Lemma merge_prefix (n : NodeId) (c rest : list TreeSelection.t) (k : nat) :
  k <= List.length c ->
  TreeSelectionState.handleToggle_merge n (c ++ rest) k
  = TreeSelectionState.handleToggle_merge n c k.
Proof.
  induction k as [|i IH]; intros Hk; [reflexivity|].
  cbn [TreeSelectionState.handleToggle_merge].
  rewrite nth_error_app1 by lia. rewrite IH by lia. reflexivity.
Qed.

Lemma merge_bounds (n : NodeId) (c : list TreeSelection.t) :
  descending (TreeSelectionState.handleToggle_merge n c (List.length c))
  /\ Forall (fun i => i < List.length c)
       (TreeSelectionState.handleToggle_merge n c (List.length c)).
Proof.
  destruct (@merge_scan n c (List.length c) (le_n _))
    as (k & _ & Hdesc & Hwin & _).
  split; [assumption|]. rewrite Forall_forall in *.
  intros i Hi. now destruct (Hwin i Hi).
Qed.

(** On a stack of toggles the merge removes the toggles of the node. *)
Lemma merge_toggles (n : NodeId) (nodes : list NodeId) :
  spliceEach
    (TreeSelectionState.handleToggle_merge n (map toggleOf nodes)
       (List.length (map toggleOf nodes)))
    (map toggleOf nodes)
  = map toggleOf (remove string_dec n nodes)
  /\ (TreeSelectionState.handleToggle_merge n (map toggleOf nodes)
        (List.length (map toggleOf nodes)) = [] <-> ~ In n nodes).
Proof.
  induction nodes as [|m nodes [IHs IHe]] using rev_ind.
  - split; [reflexivity|]. split; [intros _ [] | reflexivity].
  - rewrite map_app. cbn [map].
    assert (Hlen : List.length (map toggleOf nodes ++ [toggleOf m])
                   = S (List.length (map toggleOf nodes)))
      by (rewrite length_app; simpl; lia).
    rewrite Hlen. cbn [TreeSelectionState.handleToggle_merge].
    rewrite nth_error_app2 by lia. rewrite Nat.sub_diag.
    cbn [nth_error toggleOf type node isRANGE].
    rewrite merge_prefix by lia.
    destruct (merge_bounds n (map toggleOf nodes)) as [Hdesc Hlt].
    rewrite remove_app.
    destruct (String.eqb_spec m n) as [->|Hne].
    + split.
      * unfold spliceEach in *. cbn [fold_left].
        fold (toggleOf n). rewrite splice_at, app_nil_r. cbn [app].
        rewrite IHs. cbn [remove].
        destruct (string_dec n n); [|congruence]. now rewrite app_nil_r.
      * split; [discriminate|]. intros H. exfalso. apply H.
        apply in_or_app. right. now left.
    + split.
      * rewrite spliceEach_app by assumption. rewrite IHs.
        cbn [remove]. destruct (string_dec n m); [congruence|].
        now rewrite map_app.
      * rewrite IHe. split.
        -- intros H Hin. apply in_app_or in Hin as [Hin|[Hin|[]]];
             [contradiction | congruence].
        -- intros H Hin. apply H. apply in_or_app. now left.
Qed.

Lemma split_none_toggles (tr : Tree) (n : NodeId) (nodes : list NodeId)
    (k : nat) :
  TreeSelectionState.handleToggle_split tr n (map toggleOf nodes) k = None.
Proof.
  induction k as [|i IH]; [reflexivity|].
  cbn [TreeSelectionState.handleToggle_split].
  destruct (nth_error (map toggleOf nodes) i) as [sel|] eqn:E;
    [|reflexivity].
  apply nth_error_In, in_map_iff in E as (x & <- & _). exact IH.
Qed.

Lemma typed_toggleOf (nodes : list NodeId) :
  typed (map toggleOf nodes) = true.
Proof.
  apply typed_toggles, Forall_forall. intros g Hg.
  apply in_map_iff in Hg as (x & <- & _). reflexivity.
Qed.

Lemma toggle_on_toggles_step (tr : Tree) (nodes : list NodeId) (n : NodeId) :
  TreeSelectionState.asArray tr (TreeSelectionState.mk (map toggleOf nodes))
    = Ok (rev nodes)
  /\ (~ In n nodes ->
      TreeSelectionState.nextState tr
        (TreeSelectionState.mk (map toggleOf nodes)) (gesture (toggleOf n))
      = Ok (TreeSelectionState.mk (map toggleOf (nodes ++ [n]))))
  /\ (In n nodes ->
      TreeSelectionState.nextState tr
        (TreeSelectionState.mk (map toggleOf nodes)) (gesture (toggleOf n))
      = Ok (TreeSelectionState.mk
              (map toggleOf (remove string_dec n nodes)))).
Proof.
  pose proof (typed_toggleOf nodes) as Htyped.
  destruct (merge_toggles n nodes) as [Hsplice Hempty].
  split; [|split].
  - unfold TreeSelectionState.asArray.
    cbn [TreeSelectionState.selectionStack].
    rewrite (@check_typed _ Htyped). cbn [bind].
    unfold toggleOf. now rewrite asArray_loop_toggles.
  - intros Hnin.
    cbn [TreeSelectionState.nextState toggleOf type node].
    unfold TreeSelectionState.handleToggle.
    cbn [TreeSelectionState.selectionStack].
    rewrite (@check_typed _ Htyped). cbn [bind].
    fold (toggleOf n). rewrite split_none_toggles.
    rewrite (proj2 Hempty Hnin). cbn [List.length Nat.ltb Nat.leb spliceEach
                                      fold_left].
    now rewrite map_app.
  - intros Hin.
    cbn [TreeSelectionState.nextState toggleOf type node].
    unfold TreeSelectionState.handleToggle.
    cbn [TreeSelectionState.selectionStack].
    rewrite (@check_typed _ Htyped). cbn [bind].
    fold (toggleOf n). rewrite split_none_toggles, Hsplice.
    destruct (TreeSelectionState.handleToggle_merge n (map toggleOf nodes)
                (List.length (map toggleOf nodes))) as [|i rm] eqn:E.
    + exfalso. now apply (proj1 Hempty).
    + reflexivity.
Qed.

(** X11: on a stack made of toggles only (what clicks and ctrl-clicks
    build), the projection lists the toggled nodes, latest first; a
    TOGGLE gesture on a node that is not in the stack pushes it, and a
    TOGGLE gesture on a node of the stack removes every toggle of that
    node and keeps the order of the others. *)
Theorem toggle_on_toggles (tr : Tree) (nodes : list NodeId) (n : NodeId) :
  TreeSelectionState.asArray tr (TreeSelectionState.mk (map toggleOf nodes))
    = Ok (rev nodes)
  /\ (~ In n nodes ->
      TreeSelectionState.nextState tr
        (TreeSelectionState.mk (map toggleOf nodes)) (gesture (toggleOf n))
      = Ok (TreeSelectionState.mk (map toggleOf (nodes ++ [n]))))
  /\ (In n nodes ->
      TreeSelectionState.nextState tr
        (TreeSelectionState.mk (map toggleOf nodes)) (gesture (toggleOf n))
      = Ok (TreeSelectionState.mk
              (map toggleOf (remove string_dec n nodes)))).
Proof. exact (@toggle_on_toggles_step tr nodes n). Qed.

Lemma toggle_on_toggles_witness :
  TreeSelectionState.nextState mockTree
    (TreeSelectionState.mk (map toggleOf ["1.1"; "1.2.1.1"]))
    (gesture (toggleOf "1.1"))
  = Ok (TreeSelectionState.mk (map toggleOf ["1.2.1.1"])).
Proof.
  apply (proj2 (proj2 (toggle_on_toggles mockTree ["1.1"; "1.2.1.1"] "1.1"))).
  now left.
Defined.

(** X12: on a stack of toggles, two TOGGLE gestures on a node that was
    not selected give the state back; on a node that was selected they
    leave it selected, as the most recent node. *)
Theorem toggle_twice_on_toggles (tr : Tree) (nodes : list NodeId)
    (n : NodeId) :
  (~ In n nodes ->
   nextStates tr (TreeSelectionState.mk (map toggleOf nodes))
     [gesture (toggleOf n); gesture (toggleOf n)]
   = Ok (TreeSelectionState.mk (map toggleOf nodes)))
  /\ (In n nodes ->
      (state' <- nextStates tr (TreeSelectionState.mk (map toggleOf nodes))
                   [gesture (toggleOf n); gesture (toggleOf n)] ;;
       TreeSelectionState.asArray tr state')
      = Ok (n :: rev (remove string_dec n nodes))).
Proof.
  split.
  - intros Hnin. cbn [nextStates].
    rewrite (proj1 (proj2 (toggle_on_toggles_step tr nodes n)) Hnin). cbn [bind].
    rewrite (proj2 (proj2 (toggle_on_toggles_step tr (nodes ++ [n]) n)))
      by (apply in_or_app; right; now left).
    cbn [bind]. rewrite remove_app. cbn [remove].
    destruct (string_dec n n); [|congruence].
    now rewrite app_nil_r, notin_remove.
  - intros Hin. cbn [nextStates].
    rewrite (proj2 (proj2 (toggle_on_toggles_step tr nodes n)) Hin). cbn [bind].
    rewrite (proj1 (proj2 (toggle_on_toggles_step tr
                             (remove string_dec n nodes) n)))
      by apply remove_In.
    cbn [bind].
    etransitivity; [exact (proj1 (toggle_on_toggles_step tr _ n))|].
    now rewrite rev_app_distr.
Qed.

Lemma toggle_twice_on_toggles_witness :
  nextStates mockTree (TreeSelectionState.mk (map toggleOf ["1.1"; "1.2"]))
    [gesture (toggleOf "1.3"); gesture (toggleOf "1.3")]
  = Ok (TreeSelectionState.mk (map toggleOf ["1.1"; "1.2"])).
Proof.
  apply (proj1 (toggle_twice_on_toggles mockTree ["1.1"; "1.2"] "1.3")).
  simpl. intuition discriminate.
Defined.

(** *** A range on top of a range *)

Lemma splice_incl (A : Type) (l : list A) (p : nat) :
  incl (splice l p 1 []) l.
Proof.
  destruct (nth_error l p) as [a|] eqn:E.
  - apply nth_error_split in E as (l1 & l2 & -> & <-).
    rewrite splice_at. cbn [app]. intros x Hx. apply in_or_app.
    apply in_app_or in Hx as [Hx|Hx]; [now left | right; now right].
  - apply nth_error_None in E. rewrite splice_beyond by assumption.
    apply incl_refl.
Qed.

Lemma spliceEach_incl (A : Type) (indices : list nat) (l : list A) :
  incl (spliceEach indices l) l.
Proof.
  revert l. induction indices as [|p indices IH]; intros l;
    [apply incl_refl|].
  unfold spliceEach in *. cbn [fold_left].
  eapply incl_tran; [apply IH | apply splice_incl].
Qed.

Lemma pop_incl (A : Type) (l : list A) : incl (pop l) l.
Proof.
  destruct l as [|a l] using rev_ind; [apply incl_refl|].
  unfold pop. rewrite removelast_last. intros x Hx. apply in_or_app.
  now left.
Qed.

Lemma range_loop_copy (tr : Tree) (range : TreeSelection.t)
    (lastSelection : option NodeId) (copy : list TreeSelection.t) (k : nat)
    (r : list nat * list TreeSelection.t) :
  TreeSelectionState.handleRange_loop tr range lastSelection copy k = Ok r ->
  incl (snd r) copy.
Proof.
  revert r. induction k as [|i IH]; intros r.
  - cbn [TreeSelectionState.handleRange_loop]. intros H. inversion H.
    apply incl_refl.
  - cbn [TreeSelectionState.handleRange_loop].
    destruct (nth_error copy i) as [sel|];
      [|intros H; inversion H; apply incl_refl].
    destruct (isRANGE (type sel)).
    + destruct (Nat.eqb i (List.length copy - 1)); intros H; inversion H;
        [apply pop_incl | apply incl_refl].
    + destruct (TreeSelectionState.in_ tr range lastSelection (node sel));
        [|discriminate].
      cbn [bind].
      destruct (TreeSelectionState.handleRange_loop tr range lastSelection
                  copy i) as [r'|]; [|discriminate].
      cbn [bind]. intros H. inversion H. cbn [snd]. now apply IH.
Qed.

Lemma range_on_range_step (tr : Tree) (c : list TreeSelection.t)
    (g : TreeSelection.t) (n : NodeId) :
  typed (c ++ [g]) = true ->
  type g = Some RANGE ->
  TreeSelectionState.nextState tr (TreeSelectionState.mk (c ++ [g]))
    (gesture (rangeOf n))
  = Ok (TreeSelectionState.mk (c ++ [rangeOf n])).
Proof.
  intros Htyped Hg.
  cbn [TreeSelectionState.nextState rangeOf type node].
  unfold TreeSelectionState.handleRange.
  cbn [TreeSelectionState.selectionStack].
  rewrite (@check_typed _ Htyped). cbn [bind].
  assert (Hlen : List.length (c ++ [g]) = S (List.length c))
    by (rewrite length_app; simpl; lia).
  rewrite Hlen. cbn [TreeSelectionState.handleRange_loop].
  rewrite nth_error_app2 by lia. rewrite Nat.sub_diag.
  cbn [nth_error]. rewrite Hg. cbn [isRANGE].
  replace (Nat.eqb (List.length c) (List.length (c ++ [g]) - 1)) with true
    by (symmetry; apply Nat.eqb_eq; lia).
  cbn [bind fst snd shift tl spliceEach fold_left].
  unfold pop. now rewrite removelast_last.
Qed.

(** X13: a RANGE gesture on a state whose most recent gesture is a RANGE
    only replaces the node of that gesture and leaves the gestures below
    as they are; so a RANGE gesture repeated on the same node returns the
    state it was given. *)
Theorem range_on_range (tr : Tree) (n : NodeId) :
  (forall c g,
     typed (c ++ [g]) = true ->
     type g = Some RANGE ->
     TreeSelectionState.nextState tr (TreeSelectionState.mk (c ++ [g]))
       (gesture (rangeOf n))
     = Ok (TreeSelectionState.mk (c ++ [rangeOf n])))
  /\ (forall state state1 tr',
        TreeSelectionState.nextState tr state (gesture (rangeOf n))
          = Ok state1 ->
        TreeSelectionState.nextState tr' state1 (gesture (rangeOf n))
          = Ok state1).
Proof.
  split; [intros c g; apply range_on_range_step|].
  intros [copy] state1 tr' H.
  cbn [TreeSelectionState.nextState rangeOf type node] in H.
  unfold TreeSelectionState.handleRange in H.
  cbn [TreeSelectionState.selectionStack] in H.
  destruct (TreeSelectionState.checkNoDefaultSelection copy) as [copy'|] eqn:E;
    [|discriminate].
  apply check_ok in E as [-> Htyped]. cbn [bind] in H.
  destruct (TreeSelectionState.handleRange_loop _ _ _ _ _) as [r|] eqn:Hloop;
    [|discriminate].
  cbn [bind] in H. inversion H as [Hstate]. clear H.
  apply range_on_range_step; [|reflexivity].
  rewrite typed_app. apply andb_true_iff. split; [|reflexivity].
  apply (@typed_incl copy); [|assumption].
  eapply incl_tran; [apply spliceEach_incl|].
  exact (range_loop_copy _ _ _ _ _ Hloop).
Qed.

Lemma range_on_range_witness :
  TreeSelectionState.nextState mockTree
    (TreeSelectionState.mk ([toggleOf "1.1"; toggleOf "1.2.1.1"]
                            ++ [rangeOf "1.2.3"]))
    (gesture (rangeOf "1.2.1.2"))
  = Ok (TreeSelectionState.mk ([toggleOf "1.1"; toggleOf "1.2.1.1"]
                                ++ [rangeOf "1.2.1.2"])).
Proof.
  apply (proj1 (range_on_range mockTree "1.2.1.2")); reflexivity.
Defined.

(** *** Toggling a node inside the topmost range *)

(** X14: when the topmost gesture is a RANGE on a TOGGLE anchor and the
    range starts at the anchor, a TOGGLE gesture on another node of the
    range takes exactly that node out of the projection: the nodes before
    and after it keep their places. *)
Theorem toggle_inside_top_range (tr : Tree) (rest : list TreeSelection.t)
    (ga r : TreeSelection.t) (n : NodeId) (R1 R2 : list NodeId) :
  typed (rest ++ [ga; r]) = true ->
  type ga = Some TOGGLE ->
  type r = Some RANGE ->
  TreeSelectionState.selectionRange tr (Some (node ga)) (node r)
    = node ga :: R1 ++ n :: R2 ->
  n <> node ga ->
  ~ In n R1 ->
  exists state' older,
    TreeSelectionState.nextState tr
      (TreeSelectionState.mk (rest ++ [ga; r])) (gesture (toggleOf n))
      = Ok state'
    /\ TreeSelectionState.selectionStack state'
       = rest ++ [ga] ++ map toggleOf (R1 ++ R2)
    /\ TreeSelectionState.asArray tr (TreeSelectionState.mk (rest ++ [ga; r]))
       = Ok (rev R2 ++ n :: rev R1 ++ node ga :: older)
    /\ TreeSelectionState.asArray tr state'
       = Ok (rev R2 ++ rev R1 ++ node ga :: older).
Proof.
  intros Htyped Hga Hr HR Hne Hnin.
  set (a := node ga) in *. set (b := node r) in *.
  set (N := TreeSelectionState.asArray_loop tr rest [] None).
  assert (Hnth0 : nth_error (rest ++ [ga; r]) (List.length rest) = Some ga).
  { rewrite nth_error_app2 by lia. now rewrite Nat.sub_diag. }
  assert (Hnth1 : nth_error (rest ++ [ga; r]) (S (List.length rest)) = Some r).
  { rewrite nth_error_app2 by lia.
    now replace (S (List.length rest) - List.length rest) with 1 by lia. }
  assert (Hlen : List.length (rest ++ [ga; r]) = S (S (List.length rest)))
    by (rewrite length_app; simpl; lia).
  assert (Hbelow : TreeSelectionState.asArray_loop tr (rest ++ [ga]) [] None
                   = N ++ [a]).
  { rewrite asArray_loop_app.
    cbn [TreeSelectionState.asArray_loop]. now rewrite Hga. }
  assert (Hold : TreeSelectionState.asArray_loop tr (rest ++ [ga; r]) [] None
                 = N ++ a :: R1 ++ n :: R2).
  { rewrite asArray_loop_app.
    cbn [TreeSelectionState.asArray_loop]. rewrite Hga, Hr.
    cbn [isRANGE isTOGGLE option_map]. unfold pop.
    rewrite removelast_last. fold a b. now rewrite HR. }
  assert (Hidx : indexOf String.eqb (a :: R1 ++ n :: R2) n
                 = Z.of_nat (S (List.length R1))).
  { change (a :: R1 ++ n :: R2) with ((a :: R1) ++ n :: R2).
    rewrite indexOf_after; [reflexivity|].
    intros [H|H]; [congruence | contradiction]. }
  assert (Htyped' : typed (rest ++ [ga] ++ map toggleOf (R1 ++ R2)) = true).
  { rewrite typed_app in *. apply andb_true_iff in Htyped as [Ht1 Ht2].
    rewrite Ht1. cbn [andb]. rewrite typed_app, typed_toggleOf, andb_true_r.
    cbn [typed forallb] in *. rewrite Hga. reflexivity. }
  exists (TreeSelectionState.mk (rest ++ [ga] ++ map toggleOf (R1 ++ R2))),
    (rev N).
  split; [|split; [reflexivity|split]].
  - cbn [TreeSelectionState.nextState toggleOf type node].
    unfold TreeSelectionState.handleToggle.
    cbn [TreeSelectionState.selectionStack].
    rewrite (@check_typed _ Htyped). cbn [bind]. rewrite Hlen.
    cbn [TreeSelectionState.handleToggle_split].
    rewrite Hnth1, Hnth0, Hr. cbn [isRANGE option_map]. fold a b.
    rewrite HR, Hidx.
    destruct (Z.of_nat (S (List.length R1)) =? -1)%Z eqn:E;
      [apply Z.eqb_eq in E; lia|].
    cbn [negb]. rewrite Nat2Z.id.
    change (a :: R1 ++ n :: R2) with ((a :: R1) ++ n :: R2).
    replace (S (List.length R1)) with (List.length (a :: R1)) by reflexivity.
    rewrite splice_at. cbn [app map shift tl].
    replace (rest ++ [ga; r]) with ((rest ++ [ga]) ++ r :: [])
      by (now rewrite <- app_assoc).
    replace (S (List.length rest)) with (List.length (rest ++ [ga]))
      by (rewrite length_app; simpl; lia).
    rewrite splice_at, app_nil_r, <- app_assoc. reflexivity.
  - unfold TreeSelectionState.asArray.
    cbn [TreeSelectionState.selectionStack].
    rewrite (@check_typed _ Htyped). cbn [bind]. rewrite Hold.
    f_equal. rewrite rev_app_distr. cbn [rev].
    rewrite !rev_app_distr. cbn [rev app].
    rewrite <- !app_assoc. reflexivity.
  - unfold TreeSelectionState.asArray.
    cbn [TreeSelectionState.selectionStack].
    rewrite (@check_typed _ Htyped'). cbn [bind].
    rewrite app_assoc, asArray_loop_app, Hbelow.
    unfold toggleOf. rewrite asArray_loop_toggles.
    f_equal. rewrite !rev_app_distr. cbn [rev app].
    rewrite <- !app_assoc. reflexivity.
Qed.

Lemma toggle_inside_top_range_witness :
  exists state',
    TreeSelectionState.nextState mockTree
      (TreeSelectionState.mk
         ([toggleOf "1.1"; toggleOf "1.1.2"]
          ++ [toggleOf "1.2.1.2"; rangeOf "1.2.3"]))
      (gesture (toggleOf "1.2.2")) = Ok state'
    /\ TreeSelectionState.asArray mockTree state'
       = Ok ["1.2.3"; "1.2.1.2"; "1.1.2"; "1.1"].
Proof.
  destruct (@toggle_inside_top_range mockTree
              [toggleOf "1.1"; toggleOf "1.1.2"]
              (toggleOf "1.2.1.2") (rangeOf "1.2.3") "1.2.2" [] ["1.2.3"])
    as (state' & older & Hnext & _ & Hold & Hnew).
  - reflexivity.
  - reflexivity.
  - reflexivity.
  - vm_compute. reflexivity.
  - discriminate.
  - intros [].
  - exists state'. split; [exact Hnext|].
    vm_compute in Hold. inversion Hold; subst older. exact Hnew.
Defined.

(** *** [in] and [selectionRange] *)

Lemma loop_keeps (from to : NodeId) (it : list NodeId) :
  forall started finished range x,
    In x range ->
    In x (selectionRange_loop from to it started finished range).
Proof.
  induction it as [|node it IH]; intros started finished range x Hx;
    [assumption|].
  cbn [selectionRange_loop]. destruct finished; [assumption|].
  apply IH.
  match goal with |- In _ (if ?c then _ else _) => destruct c end;
    [apply in_or_app; now left | assumption].
Qed.

Lemma in_loop_finished (from to t : NodeId) (it : list NodeId)
    (started : bool) :
  TreeSelectionState.in_loop from to t it started true <> Some true.
Proof. destruct it; simpl; discriminate. Qed.

Lemma in_loop_sound (from to t : NodeId) (it : list NodeId) :
  t <> from -> t <> to ->
  forall started range,
    TreeSelectionState.in_loop from to t it started false = Some true ->
    In t (selectionRange_loop from to it started false range).
Proof.
  intros Hf Ht. induction it as [|node it IH]; intros started range H;
    [discriminate|].
  cbn [TreeSelectionState.in_loop selectionRange_loop orb] in *.
  destruct (String.eqb_spec t node) as [<-|Hne].
  - apply String.eqb_neq in Hf, Ht. rewrite Hf, Ht in *. cbn [orb] in *.
    destruct started; cbn [negb andb] in *; [|discriminate].
    apply loop_keeps. apply in_or_app. right. now left.
  - cbn [andb] in H.
    destruct (String.eqb node from || String.eqb node to) eqn:Hhit.
    + destruct started.
      * rewrite andb_false_r in H. now apply in_loop_finished in H.
      * cbn [andb] in H. now apply IH.
    + rewrite andb_false_r in H. now apply IH.
Qed.

Lemma in_loop_complete (from to t : NodeId) (it : list NodeId) :
  t <> from -> t <> to -> NoDup it ->
  forall started range,
    ~ In t range ->
    In t (selectionRange_loop from to it started false range) ->
    TreeSelectionState.in_loop from to t it started false = Some true.
Proof.
  intros Hf Ht. induction it as [|node it IH]; intros Hnd started range Hnin H;
    [contradiction|].
  inversion Hnd as [|? ? Hnode Hnd']; subst.
  cbn [TreeSelectionState.in_loop selectionRange_loop orb] in *.
  destruct (String.eqb_spec t node) as [<-|Hne].
  - apply String.eqb_neq in Hf, Ht. rewrite Hf, Ht in *. cbn [orb] in *.
    destruct started; cbn [negb andb]; [reflexivity|].
    exfalso. apply loop_incl in H as [H|H]; contradiction.
  - cbn [andb].
    destruct (String.eqb node from || String.eqb node to) eqn:Hhit.
    + destruct started.
      * exfalso. rewrite loop_finished in H.
        apply in_app_or in H as [H|[H|[]]]; [contradiction | congruence].
      * cbn [andb]. apply (IH Hnd' true (range ++ [node])); [|assumption].
        intros Hin. apply in_app_or in Hin as [Hin|[Hin|[]]];
          [contradiction | congruence].
    + rewrite andb_false_r. destruct started.
      * apply (IH Hnd' true (range ++ [node])); [|assumption].
        intros Hin. apply in_app_or in Hin as [Hin|[Hin|[]]];
          [contradiction | congruence].
      * now apply (IH Hnd' false range).
Qed.

Lemma in_matches_range (tr : Tree) (r : TreeNode)
    (from to t : NodeId) :
  root tr = Some r ->
  NoDup (prunedOrder r) ->
  from <> to ->
  validateNode tr (Some from) = Some from ->
  validateNode tr (Some to) = Some to ->
  TreeSelectionState.in_ tr (rangeOf to) (Some from) from = Ok true
  /\ TreeSelectionState.in_ tr (rangeOf to) (Some from) to = Ok true
  /\ (SelectableTreeNode_is tr t = true -> t <> from -> t <> to ->
      exists b,
        TreeSelectionState.in_ tr (rangeOf to) (Some from) t = Ok b
        /\ (b = true
            <-> In t (TreeSelectionState.selectionRange tr (Some from) to))).
Proof.
  intros Hroot Hnd Hft Hvf Hvt.
  unfold TreeSelectionState.in_. cbn [rangeOf type isRANGE negb node].
  rewrite Hroot, !String.eqb_refl, orb_true_r. cbn [orb].
  split; [reflexivity|]. split; [reflexivity|].
  intros Hsel Hf Ht.
  rewrite (proj2 (String.eqb_neq from t)) by congruence.
  rewrite (proj2 (String.eqb_neq to t)) by congruence. cbn [orb].
  assert (Hrange : In t (TreeSelectionState.selectionRange tr (Some from) to)
            <-> In t (selectionRange_loop from to (prunedOrder r)
                        false false [])).
  { unfold TreeSelectionState.selectionRange.
    rewrite (proj2 (String.eqb_neq to from)) by congruence.
    rewrite Hroot, Hvt, Hvf. unfold orientRange. rewrite filter_In.
    destruct (_ >? _)%Z; [rewrite <- in_rev|]; tauto. }
  destruct (TreeSelectionState.in_loop from to t (prunedOrder r) false false)
    as [b|] eqn:E.
  - exists b. split; [reflexivity|]. rewrite Hrange. split.
    + intros ->. now apply in_loop_sound.
    + intros Hin.
      pose proof (@in_loop_complete from to t (prunedOrder r) Hf Ht Hnd
                    false [] (fun H => H) Hin) as E'.
      congruence.
  - exists false. split; [reflexivity|]. rewrite Hrange.
    split; [discriminate|]. intros Hin.
    pose proof (@in_loop_complete from to t (prunedOrder r) Hf Ht Hnd
                  false [] (fun H => H) Hin) as E'.
    congruence.
Qed.

(** X15: [in], which [handleRange] uses to drop the toggles that a new
    range covers, agrees with [selectionRange]: for a range between two
    distinct nodes of a tree whose pre-order yields each node once, a
    selectable node other than the two ends is reported as contained
    exactly when [selectionRange] lists it; the two ends are always
    reported as contained. *)
Theorem in_agrees_with_selectionRange (tr : Tree) (r : TreeNode)
    (from to t : NodeId) :
  root tr = Some r ->
  NoDup (prunedOrder r) ->
  from <> to ->
  validateNode tr (Some from) = Some from ->
  validateNode tr (Some to) = Some to ->
  TreeSelectionState.in_ tr (rangeOf to) (Some from) from = Ok true
  /\ TreeSelectionState.in_ tr (rangeOf to) (Some from) to = Ok true
  /\ (SelectableTreeNode_is tr t = true -> t <> from -> t <> to ->
      exists b,
        TreeSelectionState.in_ tr (rangeOf to) (Some from) t = Ok b
        /\ (b = true
            <-> In t (TreeSelectionState.selectionRange tr (Some from) to))).
Proof. exact (@in_matches_range tr r from to t). Qed.

Lemma in_agrees_with_selectionRange_witness :
  exists b,
    TreeSelectionState.in_ mockTree (rangeOf "1.2.3") (Some "1.1") "1.2" = Ok b
    /\ (b = true
        <-> In "1.2"
              (TreeSelectionState.selectionRange mockTree (Some "1.1") "1.2.3")).
Proof.
  apply (@in_agrees_with_selectionRange mockTree MOCK_ROOT "1.1" "1.2.3" "1.2").
  - reflexivity.
  - vm_compute. repeat constructor; simpl; intuition discriminate.
  - discriminate.
  - reflexivity.
  - reflexivity.
  - reflexivity.
  - discriminate.
  - discriminate.
Defined.

(** ** The gesture based service *)

Lemma difference_In (left right : list NodeId) (n : NodeId) :
  In n (difference String.eqb left right) <-> In n left /\ ~ In n right.
Proof.
  unfold difference. rewrite filter_In, Z.eqb_eq, indexOf_absent. tauto.
Qed.

(** What [addSelection] returns for a service whose state is reachable:
    the service itself, or a service with the next state, the flags of
    the difference switched and one more event. *)
Lemma addSelection_cases (tr : Tree) (svc : TreeSelectionServiceImpl2.t)
    (selection : SelectionArg) :
  reachable (TreeSelectionServiceImpl2.state svc) ->
  TreeSelectionServiceImpl2.addSelection tr svc selection = Ok svc
  \/ exists newState oldNodes newNodes,
       TreeSelectionState.nextState tr (TreeSelectionServiceImpl2.state svc)
         selection = Ok newState
       /\ TreeSelectionState.asArray tr (TreeSelectionServiceImpl2.state svc)
          = Ok oldNodes
       /\ TreeSelectionState.asArray tr newState = Ok newNodes
       /\ TreeSelectionServiceImpl2.addSelection tr svc selection
          = Ok (TreeSelectionServiceImpl2.mk newState
                  (TreeSelectionServiceImpl2.select
                     (difference String.eqb newNodes oldNodes)
                     (TreeSelectionServiceImpl2.unselect
                        (difference String.eqb oldNodes newNodes)
                        (TreeSelectionServiceImpl2.selected svc)))
                  (newNodes :: TreeSelectionServiceImpl2.fired svc)).
Proof.
  intros Hreach.
  destruct (reachable_total Hreach) as [Hnext Harr].
  destruct (Hnext tr selection) as (newState & Hnew & Hreach').
  destruct (Harr tr) as (oldNodes & Hold).
  destruct (reachable_total Hreach') as [_ Harr'].
  destruct (Harr' tr) as (newNodes & Hnew').
  unfold TreeSelectionServiceImpl2.addSelection.
  match goal with |- (if ?c then _ else _) = _ \/ _ => destruct c end;
    [now left|].
  rewrite Hnew. cbn [bind]. rewrite Hold, Hnew'. cbn [bind].
  destruct (_ && _); [now left|].
  right. exists newState, oldNodes, newNodes. repeat split; assumption.
Qed.

(** X16: [addSelection] keeps the [selected] flags of the nodes in step
    with the projection: when they agree before the call, with a
    reachable state, they agree after it. *)
Theorem addSelection_keeps_flags (tr : Tree)
    (svc : TreeSelectionServiceImpl2.t) (selection : SelectionArg) :
  reachable (TreeSelectionServiceImpl2.state svc) ->
  flagsAgree2 tr svc ->
  exists svc',
    TreeSelectionServiceImpl2.addSelection tr svc selection = Ok svc'
    /\ flagsAgree2 tr svc'.
Proof.
  intros Hreach Hagree.
  destruct (addSelection_cases tr svc selection Hreach)
    as [->|(newState & oldNodes & newNodes & _ & Hold & Hnew & ->)].
  - now exists svc.
  - eexists. split; [reflexivity|]. exists newNodes.
    cbn [TreeSelectionServiceImpl2.state TreeSelectionServiceImpl2.selected].
    split; [assumption|]. intros n.
    destruct Hagree as (nodes & Hnodes & Hflags).
    rewrite Hold in Hnodes. inversion Hnodes; subst nodes.
    unfold TreeSelectionServiceImpl2.select, TreeSelectionServiceImpl2.unselect.
    destruct (existsb (String.eqb n) (difference String.eqb newNodes oldNodes))
      eqn:Esel.
    + apply existsb_eqb_In, difference_In in Esel. tauto.
    + assert (Hnsel : ~ In n (difference String.eqb newNodes oldNodes)).
      { intros H. apply existsb_eqb_In in H. congruence. }
      rewrite difference_In in Hnsel.
      destruct (existsb (String.eqb n)
                  (difference String.eqb oldNodes newNodes)) eqn:Eun.
      * apply existsb_eqb_In, difference_In in Eun.
        split; [discriminate | tauto].
      * assert (Hnun : ~ In n (difference String.eqb oldNodes newNodes)).
        { intros H. apply existsb_eqb_In in H. congruence. }
        rewrite difference_In in Hnun. rewrite Hflags.
        destruct (in_dec string_dec n oldNodes);
          destruct (in_dec string_dec n newNodes); tauto.
Qed.

Lemma addSelection_keeps_flags_witness :
  exists svc',
    TreeSelectionServiceImpl2.addSelection mockTree
      (TreeSelectionServiceImpl2.mk TreeSelectionState.empty
         (fun _ => false) [])
      (gesture (toggleOf "1.1")) = Ok svc'
    /\ flagsAgree2 mockTree svc'.
Proof.
  apply (@addSelection_keeps_flags mockTree
           (TreeSelectionServiceImpl2.mk TreeSelectionState.empty
              (fun _ => false) [])
           (gesture (toggleOf "1.1"))).
  - exact reachable_empty.
  - exists []. split; [reflexivity|]. intros n. simpl.
    split; [discriminate | intros []].
Defined.

(** X17: with a reachable state [addSelection] does not throw and fires
    at most one event: either the service is returned untouched, or its
    state becomes the next state, again reachable, and one event is
    fired, whose payload is the projection of the new state. *)
Theorem addSelection_fires_once (tr : Tree)
    (svc : TreeSelectionServiceImpl2.t) (selection : SelectionArg) :
  reachable (TreeSelectionServiceImpl2.state svc) ->
  exists svc',
    TreeSelectionServiceImpl2.addSelection tr svc selection = Ok svc'
    /\ reachable (TreeSelectionServiceImpl2.state svc')
    /\ (svc' = svc
        \/ exists nodes,
             TreeSelectionState.nextState tr
               (TreeSelectionServiceImpl2.state svc) selection
               = Ok (TreeSelectionServiceImpl2.state svc')
             /\ TreeSelectionState.asArray tr
                  (TreeSelectionServiceImpl2.state svc') = Ok nodes
             /\ TreeSelectionServiceImpl2.fired svc'
                = nodes :: TreeSelectionServiceImpl2.fired svc).
Proof.
  intros Hreach.
  destruct (addSelection_cases tr svc selection Hreach)
    as [->|(newState & oldNodes & newNodes & Hnext & _ & Hnew & ->)].
  - exists svc. split; [reflexivity|]. split; [assumption | now left].
  - eexists. split; [reflexivity|].
    cbn [TreeSelectionServiceImpl2.state TreeSelectionServiceImpl2.fired].
    split.
    + exact (@reachable_next tr _ newState selection Hreach Hnext).
    + right. exists newNodes. repeat split; assumption.
Qed.

Lemma addSelection_fires_once_witness :
  exists svc',
    TreeSelectionServiceImpl2.addSelection mockTree
      (TreeSelectionServiceImpl2.mk TreeSelectionState.empty
         (fun _ => false) [])
      (gesture (toggleOf "1.1")) = Ok svc'
    /\ reachable (TreeSelectionServiceImpl2.state svc').
Proof.
  destruct (@addSelection_fires_once mockTree
              (TreeSelectionServiceImpl2.mk TreeSelectionState.empty
                 (fun _ => false) [])
              (gesture (toggleOf "1.1")) reachable_empty)
    as (svc' & Hadd & Hreach & _).
  exists svc'. split; [exact Hadd | exact Hreach].
Defined.

(** ** Messages and their notifications *)

(** X18: a message sent with action labels only is shown with one button
    per label, each resolving to its label, followed by a Close button
    that resolves to nothing, and it never times out; a message sent
    with no further argument has the Close button alone and times out
    after the preferred delay. *)
Theorem message_with_labels (messageType : MessageService.MessageType)
    (text : string) (labels : list string) (preference : Z) :
  exists message,
    MessageService.processArgs messageType text
      (map MessageService.Action labels) = Ok message
    /\ NotificationsMessageClient.icon
         (NotificationsMessageClient.showToast preference message)
       = NotificationsMessageClient.iconFor messageType
    /\ NotificationsMessageClient.actions
         (NotificationsMessageClient.showToast preference message)
       = map (fun l => NotificationsMessageClient.mkAction
                         (MessageService.Action l)
                         (Some (MessageService.Action l))) labels
         ++ [NotificationsMessageClient.mkAction
               (MessageService.Action "Close") None]
    /\ NotificationsMessageClient.timeout
         (NotificationsMessageClient.showToast preference message)
       = match labels with
         | [] => Some preference
         | _ :: _ => None
         end.
Proof.
  destruct labels as [|l labels].
  - eexists. split; [reflexivity|]. repeat split.
  - eexists. split; [reflexivity|].
    cbn [NotificationsMessageClient.showToast NotificationsMessageClient.icon
         NotificationsMessageClient.actions NotificationsMessageClient.timeout
         MessageService.type MessageService.actions MessageService.options
         MessageService.text].
    rewrite map_map. repeat split.
Qed.

(** X19: a timeout passed in the options reaches the notification only
    when no action follows it: with a first action that JavaScript takes
    for true the actions are shown and the timeout is dropped; with no
    action, or with an empty first label, no action is shown at all and
    the timeout applies. *)
Theorem message_with_timeout (messageType : MessageService.MessageType)
    (text : string) (t : Z) (rest : list MessageService.Arg)
    (preference : Z) :
  exists message,
    MessageService.processArgs messageType text
      (MessageService.Options (MessageService.mkOptions (Some t)) :: rest)
      = Ok message
    /\ (MessageService.truthy (hd_error rest) = true ->
        NotificationsMessageClient.timeout
          (NotificationsMessageClient.showToast preference message) = None
        /\ NotificationsMessageClient.actions
             (NotificationsMessageClient.showToast preference message)
           = map (fun a => NotificationsMessageClient.mkAction a (Some a)) rest
             ++ [NotificationsMessageClient.mkAction
                   (MessageService.Action "Close") None])
    /\ (MessageService.truthy (hd_error rest) = false ->
        NotificationsMessageClient.timeout
          (NotificationsMessageClient.showToast preference message) = Some t
        /\ NotificationsMessageClient.actions
             (NotificationsMessageClient.showToast preference message)
           = [NotificationsMessageClient.mkAction
                (MessageService.Action "Close") None]).
Proof.
  cbn [MessageService.processArgs MessageService.timeoutOf bind
       MessageService.timeout nth_error skipn].
  replace (match rest with [] => None | x :: _ => Some x end)
    with (hd_error rest) by (now destruct rest).
  destruct (MessageService.truthy (hd_error rest)).
  - eexists. split; [reflexivity|]. split; [|discriminate].
    intros _. split; reflexivity.
  - eexists. split; [reflexivity|]. split; [discriminate|].
    intros _. split; reflexivity.
Qed.

Lemma message_with_timeout_witness :
  exists message,
    MessageService.processArgs MessageService.Info "saved"
      [ MessageService.Options (MessageService.mkOptions (Some 3000%Z));
        MessageService.Action ""; MessageService.Action "Undo" ]
      = Ok message
    /\ NotificationsMessageClient.timeout
         (NotificationsMessageClient.showToast 5000%Z message) = Some 3000%Z
    /\ NotificationsMessageClient.actions
         (NotificationsMessageClient.showToast 5000%Z message)
       = [NotificationsMessageClient.mkAction
            (MessageService.Action "Close") None].
Proof.
  destruct (message_with_timeout MessageService.Info "saved" 3000%Z
              [MessageService.Action ""; MessageService.Action "Undo"] 5000%Z)
    as (message & Hmsg & _ & Hfalse).
  exists message. split; [exact Hmsg|]. apply Hfalse. reflexivity.
Defined.

(** X20: the first argument decides how the others are read: an
    [undefined] first argument makes [processArgs] throw, and an options
    object without a timeout is not taken for options: it is passed on
    as the first action, so that the notification shows it as a button
    before the buttons of the other arguments and never times out. *)
Theorem message_first_argument (messageType : MessageService.MessageType)
    (text : string) (rest : list MessageService.Arg) (preference : Z) :
  MessageService.processArgs messageType text (MessageService.Undefined :: rest)
    = Err "TypeError: Cannot read property 'timeout' of undefined"
  /\ exists message,
       MessageService.processArgs messageType text
         (MessageService.Options (MessageService.mkOptions None) :: rest)
       = Ok message
       /\ NotificationsMessageClient.timeout
            (NotificationsMessageClient.showToast preference message) = None
       /\ NotificationsMessageClient.actions
            (NotificationsMessageClient.showToast preference message)
          = NotificationsMessageClient.mkAction
              (MessageService.Options (MessageService.mkOptions None))
              (Some (MessageService.Options (MessageService.mkOptions None)))
            :: map (fun a => NotificationsMessageClient.mkAction a (Some a))
                 rest
            ++ [NotificationsMessageClient.mkAction
                  (MessageService.Action "Close") None].
Proof.
  split; [reflexivity|]. eexists. split; [reflexivity|].
  split; reflexivity.
Qed.

(** ** One range on top of toggles *)







